(** * Embedding pipeline, grouping and plotting of
      [experiments/data_embedding/instructor_embedding_instruction.py]

    The script is embedded as a program in a small state-and-exception monad.
    The state holds the on-disk [joblib] cache and the trace of calls made to
    the external collaborators (model, dataset loader, KMeans, t-SNE,
    matplotlib).  The collaborators themselves are the fields of the class
    [Env], so that the program can be run on any implementation of them. *)

From Stdlib Require Import ZArith Lia.
From stdpp Require Import base option list gmap strings pretty.

Open Scope Z_scope.

(** ** Python exceptions and results *)

Inductive exn : Type :=
| AssertionError
| KeyError (k : string)
| IndexError
| ValueError
| ExternalError (msg : string).

Inductive result (A : Type) : Type :=
| Ok (a : A)
| Raise (e : exn).
Arguments Ok {A} a.
Arguments Raise {A} e.

Definition rbind {A B} (r : result A) (k : A → result B) : result B :=
  match r with Ok a => k a | Raise e => Raise e end.

(** [[f(x) for x in l]] where [f] may raise: the first exception wins. *)
Fixpoint map_result {A B} (f : A → result B) (l : list A) : result (list B) :=
  match l with
  | [] => Ok []
  | x :: l' =>
      rbind (f x) (λ y, rbind (map_result f l') (λ ys, Ok (y :: ys)))
  end.

(** ** Data model *)

(** A [datasets.Dataset] is a table: every row has the columns of the
    table, and a field a record of the file does not have reads [None].
    [rows] holds the fields each row does have; a column's value in a row
    is [row !! column], [None] standing for Python's [None].
    [fingerprint] stands for the state of the object besides its table
    (fingerprint, cache files, their dates): [joblib] hashes the pickled
    object, so two datasets with the same table and different fingerprints
    are different cache keys. *)
Record Dataset : Type := mkDataset {
  fingerprint : string;
  column_names : list string;
  rows : list (gmap string string)
}.

#[global] Instance Dataset_eq_dec : EqDecision Dataset.
Proof. solve_decision. Defined.

#[global] Instance Dataset_countable : Countable Dataset.
Proof.
  refine (inj_countable'
            (λ d, (fingerprint d, column_names d, rows d))
            (λ t, mkDataset t.1.1 t.1.2 t.2) _).
  by intros [].
Defined.

(** A row as [map_fn] receives it: a dict whose keys are the columns of
    the dataset. *)
Record example : Type := mkExample {
  ex_keys : list string;
  ex_fields : gmap string string
}.

Definition example_of (ds : Dataset) (row : gmap string string) : example :=
  mkExample (column_names ds) row.

(** [example[k]]: the value of the column, possibly [None]; [KeyError]
    when the dataset has no such column. *)
Definition getitem (e : example) (k : string) : result (option string) :=
  if bool_decide (k ∈ ex_keys e) then Ok (ex_fields e !! k)
  else Raise (KeyError k).

(** The [Args] dataclass. *)
Record Args : Type := mkArgs {
  data_files : list string;
  instruction : string;
  model_key : string;
  embedding_mode : string;
  queries : list string;
  query_instruction : option string;
  batch_size : Z;
  n_clusters : option Z
}.

Definition with_query_instruction (qi : option string) (a : Args) : Args :=
  mkArgs (data_files a) (instruction a) (model_key a) (embedding_mode a)
         (queries a) qi (batch_size a) (n_clusters a).

Definition with_n_clusters (n : option Z) (a : Args) : Args :=
  mkArgs (data_files a) (instruction a) (model_key a) (embedding_mode a)
         (queries a) (query_instruction a) (batch_size a) n.

(** What [joblib] hashes for [get_dataset_embedding]: every argument except
    the ignored [model] and [batch_size]. *)
Abbreviation cache_key := (string * string * Dataset * string)%type.

Definition key_dataset (k : cache_key) : Dataset := k.1.2.
Definition key_mode (k : cache_key) : string := k.1.1.2.
Definition key_instruction (k : cache_key) : string := k.2.

Definition valid_modes : list string :=
  ["seed"; "problem"; "solution"; "problem-solution"]%string.

Inductive Method : Type := cluster | query.

(** [[v for v in l]] restricted to positions [idx]; numpy raises on an
    index out of range. *)
Definition take_indices {A} (l : list A) (idx : list nat) : result (list A) :=
  map_result (λ i, match l !! i with Some v => Ok v | None => Raise IndexError end) idx.

(** [np.where(labels == label)[0].tolist()] *)
Fixpoint where_from (labels : list Z) (label : Z) (i : nat) : list nat :=
  match labels with
  | [] => []
  | l :: ls =>
      if Z.eqb l label then i :: where_from ls label (S i)
      else where_from ls label (S i)
  end.
Definition where_eq (labels : list Z) (label : Z) : list nat :=
  where_from labels label 0.

(** [labels.max()] and [labels.min()]: numpy raises [ValueError] on an
    empty array. *)
Definition array_max (labels : list Z) : result Z :=
  match labels with
  | [] => Raise ValueError
  | l :: ls => Ok (foldl Z.max l ls)
  end.
Definition array_min (labels : list Z) : result Z :=
  match labels with
  | [] => Raise ValueError
  | l :: ls => Ok (foldl Z.min l ls)
  end.

(** The two [assert]s that follow label assignment, in source order. *)
Definition check_labels (labels : list Z) (n : Z) : result unit :=
  rbind (array_max labels) (λ mx,
    if Z.eqb mx (n - 1) then
      rbind (array_min labels) (λ mn,
        if Z.eqb mn 0 then Ok tt else Raise AssertionError)
    else Raise AssertionError).

(** ** The external collaborators *)

(** Everything the script calls but does not define.  [Model] is the
    [INSTRUCTOR] handle, [vec] an embedding row, [coord] a t-SNE coordinate
    and [score] a cosine-similarity value (floating-point numbers in the
    source; only their comparison and their mean are used). *)
Class Env : Type := {
  Model : Type;
  vec : Type;
  coord : Type;
  score : Type;
  (** [INSTRUCTOR(name)] *)
  load_model : string → result Model;
  (** [load_dataset("json", data_files=[file], split="train")].  The
      argument stands for the file as it is when it is loaded: a file that
      is copied, touched or rewritten loads to another [Dataset] object
      (another fingerprint), and is another argument here. *)
  load_dataset : string → result Dataset;
  (** [model.encode(sentences, batch_size=...)]; a sentence is a pair of an
      instruction and a text, the text of a dataset row possibly [None]. *)
  encode : Model → list (string * option string) → Z → result (list vec);
  (** [SRC_INSTRUCT_ILLUSTRATION_PROMPT.format(problem=..., solution=...)];
      the template lives in [magicoder.prompt_template]. *)
  format_prompt : option string → option string → string;
  (** The fingerprint [concatenate_datasets] gives its result. *)
  concat_fingerprint : list Dataset → string;
  (** [KMeans(n_clusters=n, random_state=42).fit_predict(embeddings)] *)
  kmeans_fit_predict : Z → list vec → result (list Z);
  (** [TSNE(...).fit_transform(embeddings)] *)
  tsne_fit_transform : list vec → result (list (coord * coord));
  (** One entry of [cos_sim(a.reshape(1, -1), B)[0]]. *)
  cos_sim : vec → vec → score;
  (** [a < b] on similarity values. *)
  score_ltb : score → score → bool;
  (** [xs.mean()] *)
  mean : list coord → coord
}.

(** ** The program *)

Section Program.

Context `{Env}.

(** Calls that leave the process, in the order they are made. *)
Inductive event : Type :=
| EvModel (name : string)
| EvLoadDataset (file : string)
| EvEncode (sentences : list (string * option string)) (batch : Z)
| EvKMeans (n : Z)
| EvTSNE
| EvScatter (x y : list coord) (legend : string)
| EvMarker (x y : coord)
| EvLegend
| EvTitle (s : string)
| EvSavefig (s : string).

Record world : Type := mkWorld {
  cache : gmap cache_key (list vec);
  trace : list event
}.

Definition M (A : Type) : Type := world → result A * world.

Definition ret {A} (a : A) : M A := λ w, (Ok a, w).
Definition raise {A} (e : exn) : M A := λ w, (Raise e, w).
Definition bind {A B} (m : M A) (k : A → M B) : M B :=
  λ w, match m w with
       | (Ok a, w') => k a w'
       | (Raise e, w') => (Raise e, w')
       end.
Definition lift {A} (r : result A) : M A := λ w, (r, w).
Definition emit (e : event) : M unit :=
  λ w, (Ok tt, mkWorld (cache w) (trace w ++ [e])).
Notation "x <~ c1 ;; c2" := (bind c1 (λ x, c2))
  (at level 100, c1 at next level, right associativity).
Notation "c1 ;;; c2" := (bind c1 (λ _, c2))
  (at level 100, right associativity).

(** *** [get_dataset_embedding] *)

Definition map_fn (embedding_mode instruction : string) (ex : example)
  : result (string * option string) :=
  rbind
    (if bool_decide (embedding_mode = "seed"%string) then getitem ex "seed"
     else if bool_decide (embedding_mode = "problem"%string) then getitem ex "problem"
     else if bool_decide (embedding_mode = "solution"%string) then getitem ex "solution"
     else if bool_decide (embedding_mode = "problem-solution"%string) then
       rbind (getitem ex "problem") (λ p,
         rbind (getitem ex "solution") (λ s, Ok (Some (format_prompt p s))))
     else Raise AssertionError)
    (λ text, Ok (instruction, text)).

(** [dataset.map(map_fn).to_dict()["pair"]].  On a dataset with rows,
    [map_fn] is called on every row in turn and its results make the
    column [pair].  On a dataset without rows [map] calls nothing and
    returns the dataset as it is, so that [["pair"]] raises [KeyError]
    unless the dataset came with a column of that name. *)
Definition derive_sentences (embedding_mode instruction : string)
    (dataset : Dataset) : result (list (string * option string)) :=
  match rows dataset with
  | [] =>
      if bool_decide ("pair"%string ∈ column_names dataset) then Ok []
      else Raise (KeyError "pair")
  | _ =>
      map_result (λ row, map_fn embedding_mode instruction
                           (example_of dataset row))
                 (rows dataset)
  end.

Definition call_encode (model : Model)
    (sentences : list (string * option string)) (batch : Z) : M (list vec) :=
  emit (EvEncode sentences batch) ;;;
  lift (encode model sentences batch).

(** The undecorated function body. *)
Definition get_dataset_embedding_body (model : Model)
    (embedding_mode : string) (dataset : Dataset) (instruction : string)
    (batch : Z) : M (list vec) :=
  sentences <~ lift (derive_sentences embedding_mode instruction dataset) ;;
  call_encode model sentences batch.

(** [@MEM.cache(ignore=["model", "batch_size"])]: a hit returns the stored
    matrix without running the body; a miss runs it and stores the result
    when it returns. *)
Definition get_dataset_embedding (model : Model) (_model_name : string)
    (embedding_mode : string) (dataset : Dataset) (instruction : string)
    (batch : Z) : M (list vec) :=
  λ w,
    let k := (_model_name, embedding_mode, dataset, instruction) in
    match cache w !! k with
    | Some m => (Ok m, w)
    | None =>
        match get_dataset_embedding_body model embedding_mode dataset
                instruction batch w with
        | (Ok m, w') => (Ok m, mkWorld (<[k := m]> (cache w')) (trace w'))
        | (Raise e, w') => (Raise e, w')
        end
    end.

(** *** [get_dataset_embeddings] *)

Definition call_load_dataset (file : string) : M Dataset :=
  emit (EvLoadDataset file) ;;; lift (load_dataset file).

(** The [for data_file in args.data_files] loop, threading the two
    accumulators. *)
Fixpoint embed_loop (args : Args) (instr : string) (model : Model)
    (files : list string) (all_datasets : list Dataset)
    (all_embeddings : list (list vec))
  : M (list Dataset * list (list vec)) :=
  match files with
  | [] => ret (all_datasets, all_embeddings)
  | data_file :: rest =>
      raw_dataset <~ call_load_dataset data_file ;;
      embeddings <~ get_dataset_embedding model (model_key args)
                      (embedding_mode args) raw_dataset instr
                      (batch_size args) ;;
      embed_loop args instr model rest (all_datasets ++ [raw_dataset])
                 (all_embeddings ++ [embeddings])
  end.

(** [np.concatenate(parts, axis=0)]: [ValueError] on an empty list. *)
Definition concatenate {A} (parts : list (list A)) : result (list A) :=
  match parts with
  | [] => Raise ValueError
  | _ => Ok (concat parts)
  end.

(** What [concatenate_datasets] builds from a list of datasets: their rows
    one after the other, under the columns of all of them (text columns
    always align; a column a dataset does not have reads [None] in its
    rows). *)
Definition joined (dsets : list Dataset) : Dataset :=
  mkDataset (concat_fingerprint dsets)
            (remove_dups (concat (map column_names dsets)))
            (concat (map rows dsets)).

(** [concatenate_datasets]: [ValueError] on an empty list. *)
Definition concatenate_datasets (dsets : list Dataset) : result Dataset :=
  match dsets with
  | [] => Raise ValueError
  | _ => Ok (joined dsets)
  end.

Definition get_dataset_embeddings (args : Args) (instr : string)
    (model : Model) : M (Dataset * list vec) :=
  acc <~ embed_loop args instr model (data_files args) [] [] ;;
  raw_dataset <~ lift (concatenate_datasets acc.1) ;;
  embeddings <~ lift (concatenate acc.2) ;;
  ret (raw_dataset, embeddings).

(** *** Grouping *)

(** [np.argmax]: a later entry replaces the running maximum only when it
    is strictly larger, so the first occurrence of the maximum wins. *)
Fixpoint argmax_from (l : list score) (i : nat) (best : score)
    (best_i : nat) : nat :=
  match l with
  | [] => best_i
  | s :: l' =>
      if score_ltb best s then argmax_from l' (S i) s i
      else argmax_from l' (S i) best best_i
  end.

Definition argmax (l : list score) : result nat :=
  match l with
  | [] => Raise ValueError
  | s :: l' => Ok (argmax_from l' 1 s 0)
  end.

Definition get_label (n_queries : nat) (query_embeddings : list vec)
    (embedding : vec) : result Z :=
  let similarities := map (cos_sim embedding) query_embeddings in
  if bool_decide (length similarities = n_queries) then
    rbind (argmax similarities) (λ i, Ok (Z.of_nat i))
  else Raise AssertionError.

(** The opening assertions of [main] and the choice of [method]. *)
Definition validate (args : Args) : result Method :=
  if negb (bool_decide (length (queries args) ≠ 0%nat)
           || bool_decide (n_clusters args ≠ None)) then Raise AssertionError
  else
    let method :=
      if bool_decide (length (queries args) = 0%nat) then cluster else query in
    match method with
    | query =>
        if bool_decide (query_instruction args ≠ None) then Ok query
        else Raise AssertionError
    | cluster =>
        if bool_decide (n_clusters args ≠ None) then Ok cluster
        else Raise AssertionError
    end.

(** The labels and the number of groups, per strategy.  [main] only gets
    to the [query] branch with a [query_instruction] that is not [None]
    (see [validate]); the branch is closed here with the exception the
    assertion of [main] would have raised. *)
Definition assign_labels (args : Args) (method : Method) (model : Model)
    (embeddings : list vec) : M (list Z * Z) :=
  match method with
  | cluster =>
      match n_clusters args with
      | None => raise AssertionError
      | Some n =>
          emit (EvKMeans n) ;;;
          labels <~ lift (kmeans_fit_predict n embeddings) ;;
          lift (check_labels labels n) ;;;
          ret (labels, n)
      end
  | query =>
      match query_instruction args with
      | None => raise AssertionError
      | Some qi =>
          let qs := map (λ q, (qi, Some q)) (queries args) in
          query_embeddings <~ call_encode model qs (batch_size args) ;;
          labels <~ lift (map_result
                            (get_label (length qs) query_embeddings)
                            embeddings) ;;
          lift (check_labels labels (Z.of_nat (length qs))) ;;;
          ret (labels, Z.of_nat (length qs))
      end
  end.

(** *** Plotting *)

Definition legend_label (args : Args) (method : Method) (label : Z)
  : result string :=
  match method with
  | cluster => Ok ("Cluster " +:+ pretty (label + 1))
  | query =>
      match queries args !! Z.to_nat label with
      | Some q => Ok q
      | None => Raise IndexError
      end
  end.

(** The body of [for label in range(n_clusters)]. *)
Definition plot_label (args : Args) (method : Method) (labels : list Z)
    (xs ys : list coord) (label : Z) : M unit :=
  let indices_for_label := where_eq labels label in
  x <~ lift (take_indices xs indices_for_label) ;;
  y <~ lift (take_indices ys indices_for_label) ;;
  legend <~ lift (legend_label args method label) ;;
  emit (EvScatter x y legend) ;;;
  emit (EvMarker (mean xs) (mean ys)).

Fixpoint plot_loop (args : Args) (method : Method) (labels : list Z)
    (xs ys : list coord) (range : list Z) : M unit :=
  match range with
  | [] => ret tt
  | label :: rest =>
      plot_label args method labels xs ys label ;;;
      plot_loop args method labels xs ys rest
  end.

Definition visualize (args : Args) (method : Method) (labels : list Z)
    (n : Z) (embeddings : list vec) : M unit :=
  emit EvTSNE ;;;
  vis_dims <~ lift (tsne_fit_transform embeddings) ;;
  let xs := map fst vis_dims in
  let ys := map snd vis_dims in
  plot_loop args method labels xs ys (seqZ 0 n) ;;;
  emit EvLegend ;;;
  emit (EvTitle "Visualization of Clusters") ;;;
  emit (EvSavefig "clusters.png").

(** *** [main], after argument parsing *)

Definition call_load_model (name : string) : M Model :=
  emit (EvModel name) ;;; lift (load_model name).

Definition main (args : Args) : M unit :=
  method <~ lift (validate args) ;;
  model <~ call_load_model ("hkunlp/" +:+ model_key args) ;;
  de <~ get_dataset_embeddings args (instruction args) model ;;
  ln <~ assign_labels args method model de.2 ;;
  visualize args method ln.1 ln.2 de.2.

(** *** Notions used to state the properties *)

(** The loop of [get_dataset_embeddings] seen file by file: every file
    loads and is embedded, giving the per-file datasets and matrices in
    file order. *)
Inductive files_run (args : Args) (instr : string) (model : Model)
  : list string → world → list Dataset → list (list vec) → world → Prop :=
| files_run_nil w : files_run args instr model [] w [] [] w
| files_run_cons data_file rest w w1 w2 w3 d e Ds Es :
    call_load_dataset data_file w = (Ok d, w1) →
    get_dataset_embedding model (model_key args) (embedding_mode args) d
      instr (batch_size args) w1 = (Ok e, w2) →
    files_run args instr model rest w2 Ds Es w3 →
    files_run args instr model (data_file :: rest) w (d :: Ds) (e :: Es) w3.

(** Every stored matrix has one row per row of the dataset in its key. *)
Definition cache_aligned (c : gmap cache_key (list vec)) : Prop :=
  ∀ k m, c !! k = Some m → length m = length (rows (key_dataset k)).

(** Every stored matrix belongs to a key whose text derivation succeeds:
    entries are only written after the function body has returned. *)
Definition cache_sound (c : gmap cache_key (list vec)) : Prop :=
  ∀ k m, c !! k = Some m →
    ∃ sentences,
      derive_sentences (key_mode k) (key_instruction k) (key_dataset k)
      = Ok sentences.

(** Every stored matrix is, row by row, the embedding [embed_row] gives
    the sentences derived from its key, under the model name of the key. *)
Definition cache_rowwise (embed_row : string → string * option string → vec)
    (c : gmap cache_key (list vec)) : Prop :=
  ∀ name mode ds instr m, c !! (name, mode, ds, instr) = Some m →
    ∃ sentences,
      derive_sentences mode instr ds = Ok sentences
      ∧ m = map (embed_row name) sentences.

(** A computation that never removes or replaces a cache entry. *)
Definition cache_mono {A} (m : M A) : Prop :=
  ∀ w r w', m w = (r, w') → cache w ⊆ cache w'.

(** The query embeddings of a nearest-query run. *)
Definition query_embeddings_of (args : Args) (model : Model)
  : result (list vec) :=
  match query_instruction args with
  | Some qi =>
      encode model (map (λ q, (qi, Some q)) (queries args)) (batch_size args)
  | None => Raise AssertionError
  end.

(** The labels a strategy computes, before they are checked, together
    with the number of groups. *)
Definition raw_labels (args : Args) (method : Method) (model : Model)
    (embeddings : list vec) : result (list Z * Z) :=
  match method with
  | cluster =>
      match n_clusters args with
      | Some n =>
          rbind (kmeans_fit_predict n embeddings) (λ labels, Ok (labels, n))
      | None => Raise AssertionError
      end
  | query =>
      rbind (query_embeddings_of args model) (λ query_embeddings,
        rbind (map_result
                 (get_label (length (queries args)) query_embeddings)
                 embeddings)
              (λ labels, Ok (labels, Z.of_nat (length (queries args)))))
  end.

(** The external call a strategy makes to compute its labels. *)
Definition strategy_events (args : Args) (method : Method) : list event :=
  match method with
  | cluster =>
      match n_clusters args with Some n => [EvKMeans n] | None => [] end
  | query =>
      match query_instruction args with
      | Some qi =>
          [EvEncode (map (λ q, (qi, Some q)) (queries args)) (batch_size args)]
      | None => []
      end
  end.

(** What one iteration of the plotting loop draws for [label]. *)
Definition series_of (args : Args) (method : Method) (labels : list Z)
    (xs ys : list coord) (label : Z)
    (s : list coord * list coord * string) : Prop :=
  take_indices xs (where_eq labels label) = Ok s.1.1
  ∧ take_indices ys (where_eq labels label) = Ok s.1.2
  ∧ legend_label args method label = Ok s.2.

(** The centroid markers of a trace, in plotting order. *)
Definition markers (t : list event) : list (coord * coord) :=
  omap (λ e, match e with EvMarker x y => Some (x, y) | _ => None end) t.

(** The call behind an event. *)
Definition event_name (e : event) : string :=
  match e with
  | EvModel _ => "INSTRUCTOR"
  | EvLoadDataset _ => "load_dataset"
  | EvEncode _ _ => "encode"
  | EvKMeans _ => "fit_predict"
  | EvTSNE => "fit_transform"
  | EvScatter _ _ _ => "scatter"
  | EvMarker _ _ => "scatter-x"
  | EvLegend => "legend"
  | EvTitle _ => "title"
  | EvSavefig _ => "savefig"
  end.

(** A computation that leaves in the cache only what was there before and
    entries under keys that satisfy [P]. *)
Definition cache_adds (P : cache_key → Prop) {A} (m : M A) : Prop :=
  ∀ w r w', m w = (r, w') →
    ∀ k v, cache w' !! k = Some v → cache w !! k = Some v ∨ P k.

(** The keys a run with arguments [args] may store under. *)
Definition run_key (args : Args) (k : cache_key) : Prop :=
  k.1.1.1 = model_key args
  ∧ key_mode k = embedding_mode args
  ∧ key_instruction k = instruction args
  ∧ ∃ file, file ∈ data_files args ∧ load_dataset file = Ok (key_dataset k).

(** The legends of the series of a trace, in plotting order. *)
Definition scatter_legends (t : list event) : list string :=
  omap (λ e, match e with EvScatter _ _ lg => Some lg | _ => None end) t.

(** The events of one label's loop iteration. *)
Definition label_events (s : list coord * list coord * string)
    (c : coord * coord) : list event :=
  [EvScatter s.1.1 s.1.2 s.2; EvMarker c.1 c.2].

End Program.

(** The labels are exactly the values [0 .. n-1]. *)
Definition dense_cover (labels : list Z) (n : Z) : Prop :=
  ∀ l, l ∈ labels ↔ 0 ≤ l < n.

(** The entries of [xs] at the positions where [labels] holds [label]:
    numpy's [xs[labels == label]]. *)
Definition select_by_label {A} (xs : list A) (labels : list Z) (label : Z)
  : list A :=
  (filter (λ p, p.2 = label) (zip xs labels)).*1.


Definition with_data_files (files : list string) (a : Args) : Args :=
  mkArgs files (instruction a) (model_key a) (embedding_mode a)
         (queries a) (query_instruction a) (batch_size a) (n_clusters a).

(** ** A concrete set of collaborators on integer vectors *)

Module Demo.

Definition row (seed problem solution : string) : gmap string string :=
  <["seed" := seed]> (<["problem" := problem]> (<["solution" := solution]> ∅)).

Definition columns : list string := ["seed"; "problem"; "solution"]%string.

Definition file_a : Dataset :=
  mkDataset "fp-a" columns [row "s0" "east" "x"; row "s1" "west" "y"].
Definition file_b : Dataset :=
  mkDataset "fp-b" columns [row "s2" "east" "z"].

(** The table of [file_a] in another object: a copy of the file. *)
Definition file_a_copy : Dataset :=
  mkDataset "fp-a-copy" columns (rows file_a).

Definition load (file : string) : result Dataset :=
  if bool_decide (file = "a.jsonl"%string) then Ok file_a
  else if bool_decide (file = "b.jsonl"%string) then Ok file_b
  else Raise (ExternalError "FileNotFoundError").

Definition join_fingerprints (dsets : list Dataset) : string :=
  foldr (λ d acc, fingerprint d +:+ "+" +:+ acc) "" dsets.

(** [file_a] and [file_b] concatenated. *)
Definition files_ab : Dataset :=
  mkDataset "fp-a+fp-b+" columns (rows file_a ++ rows file_b).

(** Texts are sent to unit vectors of the plane, so that the dot product
    below is their cosine similarity. *)
Definition embed (pair : string * option string) : list Z :=
  if bool_decide (pair.2 = Some "east"%string) then [1; 0]
  else if bool_decide (pair.2 = Some "north"%string) then [0; 1]
  else if bool_decide (pair.2 = Some "west"%string) then [-1; 0]
  else [0; -1].

Definition fill (p s : option string) : string :=
  default "None" p +:+ " / " +:+ default "None" s.

Fixpoint dot (a b : list Z) : Z :=
  match a, b with
  | x :: a', y :: b' => x * y + dot a' b'
  | _, _ => 0
  end.

Definition average (l : list Z) : Z :=
  foldr Z.add 0 l / Z.of_nat (length l).

#[export] Instance env : Env := {|
  Model := string;
  vec := list Z;
  coord := Z;
  score := Z;
  load_model := λ name, Ok name;
  load_dataset := load;
  encode := λ _ sentences _, Ok (map embed sentences);
  format_prompt := fill;
  concat_fingerprint := join_fingerprints;
  kmeans_fit_predict := λ n E, Ok (imap (λ i _, Z.of_nat i `mod` n) E);
  tsne_fit_transform := λ E, Ok (map (λ v, (3 * nth 0 v 0, 3 * nth 1 v 0)) E);
  cos_sim := dot;
  score_ltb := Z.ltb;
  mean := average
|}.

(** An encoder that loses the last row of every batch of sentences, to
    exercise misalignment. *)
Definition lossy_env : Env := {|
  Model := string;
  vec := list Z;
  coord := Z;
  score := Z;
  load_model := λ name, Ok name;
  load_dataset := load;
  encode := λ _ sentences _, Ok (map embed (removelast sentences));
  format_prompt := fill;
  concat_fingerprint := join_fingerprints;
  kmeans_fit_predict := λ n E, Ok (imap (λ i _, Z.of_nat i `mod` n) E);
  tsne_fit_transform := λ E, Ok (map (λ v, (3 * nth 0 v 0, 3 * nth 1 v 0)) E);
  cos_sim := dot;
  score_ltb := Z.ltb;
  mean := average
|}.

(** Two handles that do not embed alike: the second one sends every text
    to the same vector. *)
Definition handle_env : Env := {|
  Model := string;
  vec := list Z;
  coord := Z;
  score := Z;
  load_model := λ name, Ok name;
  load_dataset := load;
  encode := λ handle sentences _,
    Ok (map (λ p, if bool_decide (handle = "handle-1"%string) then embed p
                  else [0; -1]) sentences);
  format_prompt := fill;
  concat_fingerprint := join_fingerprints;
  kmeans_fit_predict := λ n E, Ok (imap (λ i _, Z.of_nat i `mod` n) E);
  tsne_fit_transform := λ E, Ok (map (λ v, (3 * nth 0 v 0, 3 * nth 1 v 0)) E);
  cos_sim := dot;
  score_ltb := Z.ltb;
  mean := average
|}.

Definition w0 `{Env} : world := mkWorld ∅ [].

Definition cluster_args : Args :=
  mkArgs ["a.jsonl"; "b.jsonl"] "Represent the code" "instructor-base"
         "problem" [] None 32 (Some 2).

Definition query_args (qs : list string) : Args :=
  mkArgs ["a.jsonl"; "b.jsonl"] "Represent the code" "instructor-base"
         "problem" qs (Some "Represent the query") 32 None.

Definition one_cluster_args : Args :=
  mkArgs ["a.jsonl"; "b.jsonl"] "Represent the code" "instructor-base"
         "problem" [] None 32 (Some 1).

Definition neither_args : Args :=
  mkArgs ["a.jsonl"] "Represent the code" "instructor-base"
         "problem" [] (Some "Represent the query") 32 None.

Definition both_args : Args :=
  mkArgs ["a.jsonl"] "Represent the code" "instructor-base"
         "problem" ["east"] (Some "Represent the query") 32 (Some 2).

(** A dataset whose second record has no [problem] field: the column is
    there, the field reads [None]. *)
Definition ragged : Dataset :=
  mkDataset "fp-r" columns [row "s0" "east" "x"; <["seed" := "s1"%string]> ∅].

(** A dataset without a [problem] column. *)
Definition seeds_only : Dataset :=
  mkDataset "fp-s" ["seed"%string] [<["seed" := "s0"%string]> ∅].

(** Datasets without rows: one with the usual columns, one that comes
    with a column [pair]. *)
Definition no_rows : Dataset := mkDataset "fp-0" columns [].
Definition no_rows_with_pair : Dataset := mkDataset "fp-p" ["pair"%string] [].

Definition no_instruction_args : Args :=
  mkArgs ["a.jsonl"] "Represent the code" "instructor-base"
         "problem" ["east"] None 32 (Some 2).

Definition broken_files_args : Args :=
  mkArgs ["a.jsonl"; "missing.jsonl"; "b.jsonl"] "Represent the code"
         "instructor-base" "problem" [] None 32 (Some 2).

End Demo.

(** * Properties *)

(** ** Pure helpers *)

Lemma rbind_ok {A B} (r : result A) (k : A → result B) (b : B) :
  rbind r k = Ok b ↔ ∃ a, r = Ok a ∧ k a = Ok b.
Proof.
  destruct r as [a|e]; simpl.
  - split; [eauto | intros (a' & [= ->] & Hk); exact Hk].
  - split; [discriminate | intros (a' & [=] & _)].
Qed.

Lemma map_result_ok_length {A B} (f : A → result B) l ys :
  map_result f l = Ok ys → length ys = length l.
Proof.
  revert ys. induction l as [|x l IH]; intros ys; simpl.
  - intros [= <-]. reflexivity.
  - destruct (f x) as [y|]; simpl; [|discriminate].
    destruct (map_result f l) as [ys'|]; simpl; [|discriminate].
    intros [= <-]. simpl. f_equal. apply IH. reflexivity.
Qed.

Lemma map_result_ok_lookup {A B} (f : A → result B) l ys i x :
  map_result f l = Ok ys → l !! i = Some x →
  ∃ y, ys !! i = Some y ∧ f x = Ok y.
Proof.
  revert ys i. induction l as [|a l IH]; intros ys i; simpl.
  - intros _ Hl. destruct i; discriminate Hl.
  - destruct (f a) as [y|] eqn:Hfa; simpl; [|discriminate].
    destruct (map_result f l) as [ys'|] eqn:Hrec; simpl; [|discriminate].
    intros [= <-] Hl. destruct i as [|i]; simpl in *.
    + injection Hl as ->. eauto.
    + eapply IH; eauto.
Qed.

Lemma map_result_all_ok {A B} (f : A → result B) l :
  (∀ x, x ∈ l → ∃ y, f x = Ok y) → ∃ ys, map_result f l = Ok ys.
Proof.
  induction l as [|a l IH]; intros Hall; simpl.
  - eauto.
  - destruct (Hall a) as [y Hy]; [left|]. rewrite Hy. simpl.
    destruct IH as [ys Hys].
    { intros x Hx. apply Hall. right. exact Hx. }
    rewrite Hys. simpl. eauto.
Qed.

Lemma map_result_first_raise {A B} (f : A → result B) x l e :
  f x = Raise e → map_result f (x :: l) = Raise e.
Proof. intros Hf. simpl. rewrite Hf. reflexivity. Qed.

Lemma foldl_max_spec (a : Z) (ls : list Z) :
  foldl Z.max a ls ∈ a :: ls ∧ ∀ x, x ∈ a :: ls → x ≤ foldl Z.max a ls.
Proof.
  revert a. induction ls as [|b ls IH]; intros a; simpl.
  - split; [left|]. intros x Hx. apply list_elem_of_singleton in Hx. lia.
  - destruct (IH (Z.max a b)) as [Hin Hub]. split.
    + apply elem_of_cons in Hin as [Heq|Hin].
      * rewrite Heq. destruct (Z.max_spec a b) as [[_ ->]|[_ ->]];
          [right; left | left].
      * right. right. exact Hin.
    + intros x Hx.
      assert (Z.max a b ≤ foldl Z.max (Z.max a b) ls) by (apply Hub; left).
      apply elem_of_cons in Hx as [->|Hx]; [lia|].
      apply elem_of_cons in Hx as [->|Hx]; [lia|].
      apply Hub. right. exact Hx.
Qed.

Lemma foldl_min_spec (a : Z) (ls : list Z) :
  foldl Z.min a ls ∈ a :: ls ∧ ∀ x, x ∈ a :: ls → foldl Z.min a ls ≤ x.
Proof.
  revert a. induction ls as [|b ls IH]; intros a; simpl.
  - split; [left|]. intros x Hx. apply list_elem_of_singleton in Hx. lia.
  - destruct (IH (Z.min a b)) as [Hin Hlb]. split.
    + apply elem_of_cons in Hin as [Heq|Hin].
      * rewrite Heq. destruct (Z.min_spec a b) as [[_ ->]|[_ ->]];
          [left | right; left].
      * right. right. exact Hin.
    + intros x Hx.
      assert (foldl Z.min (Z.min a b) ls ≤ Z.min a b) by (apply Hlb; left).
      apply elem_of_cons in Hx as [->|Hx]; [lia|].
      apply elem_of_cons in Hx as [->|Hx]; [lia|].
      apply Hlb. right. exact Hx.
Qed.

(** The check passes exactly when both ends of the range occur among the
    labels and no label lies outside it. *)
Lemma check_labels_ok_iff (labels : list Z) (n : Z) :
  check_labels labels n = Ok tt ↔
  (n - 1) ∈ labels ∧ 0 ∈ labels ∧ ∀ l, l ∈ labels → 0 ≤ l ≤ n - 1.
Proof.
  unfold check_labels. destruct labels as [|a ls]; simpl.
  - split; [discriminate|]. intros (Hin & _). inversion Hin.
  - destruct (foldl_max_spec a ls) as [Hmax_in Hmax].
    destruct (foldl_min_spec a ls) as [Hmin_in Hmin].
    destruct (Z.eqb_spec (foldl Z.max a ls) (n - 1)) as [Emax|Nmax]; simpl.
    + destruct (Z.eqb_spec (foldl Z.min a ls) 0) as [Emin|Nmin].
      * split; [intros _|reflexivity].
        rewrite <- Emax. rewrite <- Emin at 1.
        split; [exact Hmax_in|]. split; [exact Hmin_in|].
        intros l Hl. specialize (Hmax l Hl). specialize (Hmin l Hl). lia.
      * split; [discriminate|]. intros (_ & H0 & Hall). exfalso.
        specialize (Hmin 0 H0). specialize (Hall _ Hmin_in). lia.
    + split; [discriminate|]. intros (Hn & _ & Hall). exfalso.
      specialize (Hmax _ Hn). specialize (Hall _ Hmax_in). lia.
Qed.

Lemma check_labels_raise (labels : list Z) (n : Z) :
  check_labels labels n ≠ Ok tt →
  (labels = [] ∧ check_labels labels n = Raise ValueError)
  ∨ (labels ≠ [] ∧ check_labels labels n = Raise AssertionError).
Proof.
  unfold check_labels. destruct labels as [|a ls]; simpl; [left; eauto|].
  intros Hne. right. split; [discriminate|].
  destruct (Z.eqb _ (n - 1)); [|reflexivity]. simpl in *.
  destruct (Z.eqb _ 0); [congruence|reflexivity].
Qed.

(** ** The monad *)

Section Facts.

Context `{Env}.

Lemma bind_ext {A B} (m1 m2 : M A) (k1 k2 : A → M B) :
  (∀ w, m1 w = m2 w) → (∀ a w, k1 a w = k2 a w) →
  ∀ w, bind m1 k1 w = bind m2 k2 w.
Proof.
  intros Hm Hk w. unfold bind. rewrite Hm.
  destruct (m2 w) as [[a|e] w']; [apply Hk | reflexivity].
Qed.

Lemma bind_ok {A B} (m : M A) (k : A → M B) w b w' :
  bind m k w = (Ok b, w') ↔ ∃ a w1, m w = (Ok a, w1) ∧ k a w1 = (Ok b, w').
Proof.
  unfold bind. destruct (m w) as [[a|e] w1].
  - split; [eauto | intros (a' & w1' & [= -> ->] & Hk); exact Hk].
  - split; [discriminate | intros (a' & w1' & [=] & _)].
Qed.

Lemma run_ok_split {A} (r : result A * world) (a : A) :
  r.1 = Ok a → r = (Ok a, r.2).
Proof. destruct r as [r1 w]. simpl. by intros ->. Qed.

Lemma bind_step {A B} (m : M A) (k : A → M B) w a w1 :
  m w = (Ok a, w1) → bind m k w = k a w1.
Proof. intros Hm. unfold bind. rewrite Hm. reflexivity. Qed.

Lemma bind_raise {A B} (m : M A) (k : A → M B) w e w1 :
  m w = (Raise e, w1) → bind m k w = (Raise e, w1).
Proof. intros Hm. unfold bind. rewrite Hm. reflexivity. Qed.

(** ** Configuration *)

Lemma validate_neither (a : Args) :
  queries a = [] → n_clusters a = None → validate a = Raise AssertionError.
Proof. intros Hq Hn. unfold validate. rewrite Hq, Hn. reflexivity. Qed.

Lemma validate_queries (a : Args) :
  queries a ≠ [] →
  validate a = match query_instruction a with
               | Some _ => Ok query
               | None => Raise AssertionError
               end.
Proof.
  intros Hq. unfold validate.
  destruct (queries a) as [|q qs]; [congruence|]. simpl.
  destruct (query_instruction a); reflexivity.
Qed.

Lemma validate_no_queries (a : Args) :
  queries a = [] →
  validate a = match n_clusters a with
               | Some _ => Ok cluster
               | None => Raise AssertionError
               end.
Proof.
  intros Hq. unfold validate. rewrite Hq. simpl.
  destruct (n_clusters a); reflexivity.
Qed.

Lemma embed_loop_args_irrel (a a' : Args) instr model :
  model_key a = model_key a' → embedding_mode a = embedding_mode a' →
  batch_size a = batch_size a' →
  ∀ files Ds Es w,
    embed_loop a instr model files Ds Es w
    = embed_loop a' instr model files Ds Es w.
Proof.
  intros Hk Hm Hb files.
  induction files as [|f rest IH]; intros Ds Es w; simpl; [reflexivity|].
  apply bind_ext; [reflexivity|]. intros d w1.
  rewrite Hk, Hm, Hb.
  apply bind_ext; [reflexivity|]. intros e w2. apply IH.
Qed.

Lemma get_dataset_embeddings_args_irrel (a a' : Args) instr model :
  data_files a = data_files a' →
  model_key a = model_key a' → embedding_mode a = embedding_mode a' →
  batch_size a = batch_size a' →
  ∀ w, get_dataset_embeddings a instr model w
       = get_dataset_embeddings a' instr model w.
Proof.
  intros Hf Hk Hm Hb w. unfold get_dataset_embeddings. rewrite Hf.
  apply bind_ext; [|reflexivity]. intros w1.
  apply embed_loop_args_irrel; assumption.
Qed.

Lemma plot_loop_cluster_args_irrel (a a' : Args) labels xs ys range w :
  plot_loop a cluster labels xs ys range w
  = plot_loop a' cluster labels xs ys range w.
Proof.
  revert w. induction range as [|l rest IH]; intros w; simpl; [reflexivity|].
  apply bind_ext; [reflexivity|]. intros _ w1. apply IH.
Qed.

Lemma plot_loop_query_args_irrel (a a' : Args) labels xs ys range w :
  queries a = queries a' →
  plot_loop a query labels xs ys range w
  = plot_loop a' query labels xs ys range w.
Proof.
  intros Hq.
  revert w. induction range as [|l rest IH]; intros w; simpl; [reflexivity|].
  apply bind_ext; [|intros _ w1; apply IH].
  intros w1. unfold plot_label, legend_label. rewrite Hq. reflexivity.
Qed.

Lemma visualize_args_irrel (a a' : Args) method labels n E w :
  queries a = queries a' →
  visualize a method labels n E w = visualize a' method labels n E w.
Proof.
  intros Hq. unfold visualize.
  apply bind_ext; [reflexivity|]. intros _ w1.
  apply bind_ext; [reflexivity|]. intros vis w2.
  apply bind_ext; [|reflexivity]. intros w3.
  destruct method;
    [apply plot_loop_cluster_args_irrel | by apply plot_loop_query_args_irrel].
Qed.

(** The rest of [main] after validation. *)
Lemma main_unfold (a : Args) w :
  main a w =
  match validate a with
  | Ok method =>
      bind (call_load_model ("hkunlp/" +:+ model_key a)) (λ model,
        bind (get_dataset_embeddings a (instruction a) model) (λ de,
          bind (assign_labels a method model de.2) (λ ln,
            visualize a method ln.1 ln.2 de.2))) w
  | Raise e => (Raise e, w)
  end.
Proof. unfold main, bind at 1, lift. destruct (validate a); reflexivity. Qed.

(** C4 (amended). With neither queries nor a cluster count the run stops
    with an [AssertionError] before anything else happens; with both, the
    configuration is not rejected: the nearest-query strategy is selected
    (it only needs [query_instruction]) and the cluster count plays no
    part in the run. *)
Theorem C4_neither_rejected_both_selects_query (a : Args) :
  (queries a = [] → n_clusters a = None →
     validate a = Raise AssertionError
     ∧ ∀ w, main a w = (Raise AssertionError, w))
  ∧ (queries a ≠ [] → n_clusters a ≠ None →
     validate a = match query_instruction a with
                  | Some _ => Ok query
                  | None => Raise AssertionError
                  end
     ∧ ∀ n w, main (with_n_clusters n a) w = main a w).
Proof.
  split.
  - intros Hq Hn. pose proof (validate_neither a Hq Hn) as Hv.
    split; [exact Hv|]. intros w. rewrite main_unfold, Hv. reflexivity.
  - intros Hq _. split; [by apply validate_queries|].
    intros n w. rewrite !main_unfold.
    rewrite (validate_queries a Hq).
    rewrite (validate_queries (with_n_clusters n a)) by exact Hq.
    simpl. destruct (query_instruction a) as [qi|]; [|reflexivity].
    apply bind_ext; [reflexivity|]. intros model w1.
    apply bind_ext.
    { intros w2. by apply get_dataset_embeddings_args_irrel. }
    intros de w2.
    apply bind_ext; [reflexivity|]. intros ln w3.
    by apply visualize_args_irrel.
Qed.

(** C10. With an empty queries list, validation gives the same verdict
    whatever [query_instruction] holds, accepts the configuration as soon
    as a cluster count is there, and the whole run is the same as without
    the supplied [query_instruction]. *)
Theorem C10_query_instruction_unused_without_queries
    (a : Args) (qi : option string) :
  queries a = [] →
  validate (with_query_instruction qi a) = validate a
  ∧ (n_clusters a ≠ None →
     validate (with_query_instruction qi a) = Ok cluster)
  ∧ ∀ w, main (with_query_instruction qi a) w = main a w.
Proof.
  intros Hq.
  assert (Hv : validate (with_query_instruction qi a) = validate a).
  { rewrite !validate_no_queries by exact Hq. reflexivity. }
  split; [exact Hv|]. split.
  - intros Hn. rewrite Hv, validate_no_queries by exact Hq.
    destruct (n_clusters a); [reflexivity|congruence].
  - intros w. rewrite !main_unfold, Hv.
    rewrite validate_no_queries by exact Hq.
    destruct (n_clusters a) as [n|] eqn:Hn; [|reflexivity].
    apply bind_ext; [reflexivity|]. intros model w1.
    apply bind_ext.
    { intros w2. by apply get_dataset_embeddings_args_irrel. }
    intros de w2.
    apply bind_ext.
    { intros w3. simpl. rewrite Hn. reflexivity. }
    intros ln w3. by apply visualize_args_irrel.
Qed.

(** ** Plotting *)

Lemma lift_ok {A} (r : result A) w a w' :
  lift r w = (Ok a, w') ↔ r = Ok a ∧ w' = w.
Proof. unfold lift. split; [intros [= -> ->] | intros [-> ->]]; eauto. Qed.

Lemma markers_app (t1 t2 : list event) :
  markers (t1 ++ t2) = markers t1 ++ markers t2.
Proof. unfold markers. apply omap_app. Qed.

Lemma plot_label_ok a method labels xs ys label w w' :
  plot_label a method labels xs ys label w = (Ok tt, w') →
  ∃ s, series_of a method labels xs ys label s
       ∧ w' = mkWorld (cache w)
                (trace w ++ label_events s (mean xs, mean ys)).
Proof.
  unfold plot_label. intros Hrun.
  apply bind_ok in Hrun as (x & w1 & Hx & Hrun). apply lift_ok in Hx as [Hx ->].
  apply bind_ok in Hrun as (y & w1 & Hy & Hrun). apply lift_ok in Hy as [Hy ->].
  apply bind_ok in Hrun as (lg & w1 & Hl & Hrun). apply lift_ok in Hl as [Hl ->].
  exists (x, y, lg). split; [by repeat split|].
  unfold bind, emit in Hrun. simpl in Hrun. injection Hrun as <-.
  unfold label_events. simpl. rewrite <- app_assoc. reflexivity.
Qed.

Lemma plot_loop_ok a method labels xs ys range w w' :
  plot_loop a method labels xs ys range w = (Ok tt, w') →
  ∃ series,
    Forall2 (series_of a method labels xs ys) range series
    ∧ w' = mkWorld (cache w)
             (trace w ++ flat_map (λ s, label_events s (mean xs, mean ys)) series).
Proof.
  revert w. induction range as [|label rest IH]; intros w; simpl.
  - intros [= <-]. exists []. split; [constructor|].
    simpl. rewrite app_nil_r. by destruct w.
  - intros Hrun. apply bind_ok in Hrun as ([] & w1 & Hone & Hrest).
    apply plot_label_ok in Hone as (s & Hs & ->).
    apply IH in Hrest as (series & Hseries & ->).
    exists (s :: series). split; [by constructor|].
    simpl. rewrite <- !app_assoc. reflexivity.
Qed.

Lemma markers_series (series : list (list coord * list coord * string)) c :
  markers (flat_map (λ s, label_events s c) series)
  = replicate (length series) c.
Proof.
  induction series as [|s series IH]; simpl; [reflexivity|].
  destruct c as [cx cy]. simpl in *. f_equal. exact IH.
Qed.

(** C8. A run of the visualization that completes has drawn, for each
    label of [range(n)] in turn, that label's series followed by one
    marker, and every one of these markers sits at the mean of all
    projected points: there are exactly [n] markers, all equal. *)
Theorem C8_one_global_centroid_marker_per_label
    (a : Args) (method : Method) (labels : list Z) (n : Z)
    (E : list vec) (w w' : world) :
  visualize a method labels n E w = (Ok tt, w') →
  ∃ vis_dims series,
    tsne_fit_transform E = Ok vis_dims
    ∧ Forall2 (series_of a method labels (map fst vis_dims) (map snd vis_dims))
              (seqZ 0 n) series
    ∧ trace w' =
        trace w ++ EvTSNE ::
          flat_map (λ s, label_events s
                           (mean (map fst vis_dims), mean (map snd vis_dims)))
                   series
          ++ [EvLegend; EvTitle "Visualization of Clusters";
              EvSavefig "clusters.png"]
    ∧ markers (trace w') =
        markers (trace w)
        ++ replicate (Z.to_nat n)
             (mean (map fst vis_dims), mean (map snd vis_dims)).
Proof.
  unfold visualize. intros Hrun.
  apply bind_ok in Hrun as ([] & w1 & Htsne & Hrun).
  unfold emit in Htsne. injection Htsne as <-.
  apply bind_ok in Hrun as (vis & w2 & Hvis & Hrun).
  apply lift_ok in Hvis as [Hvis ->].
  apply bind_ok in Hrun as ([] & w3 & Hloop & Hrun).
  apply plot_loop_ok in Hloop as (series & Hseries & ->).
  unfold bind, emit in Hrun. simpl in Hrun. injection Hrun as <-.
  exists vis, series. split; [exact Hvis|]. split; [exact Hseries|].
  simpl.
  assert (Htrace :
    (((((trace w ++ [EvTSNE]) ++
        flat_map (λ s, label_events s
                         (mean (map fst vis), mean (map snd vis))) series)
       ++ [EvLegend]) ++ [EvTitle "Visualization of Clusters"])
     ++ [EvSavefig "clusters.png"])
    = trace w ++ EvTSNE ::
        flat_map (λ s, label_events s
                         (mean (map fst vis), mean (map snd vis))) series
        ++ [EvLegend; EvTitle "Visualization of Clusters";
            EvSavefig "clusters.png"]).
  { rewrite <- !app_assoc. reflexivity. }
  split; [exact Htrace|]. rewrite Htrace.
  rewrite markers_app. f_equal.
  change (EvTSNE :: ?t) with ([EvTSNE] ++ t).
  rewrite !markers_app, markers_series. simpl. rewrite app_nil_r.
  apply Forall2_length in Hseries. rewrite <- Hseries, length_seqZ.
  reflexivity.
Qed.

(** ** Label range check *)

Lemma assign_labels_raw (a : Args) (method : Method) (model : Model)
    (E : list vec) (labels : list Z) (n : Z) (w : world) :
  raw_labels a method model E = Ok (labels, n) →
  assign_labels a method model E w
  = (rbind (check_labels labels n) (λ _, Ok (labels, n)),
     mkWorld (cache w) (trace w ++ strategy_events a method)).
Proof.
  destruct method; unfold raw_labels, assign_labels, strategy_events.
  - destruct (n_clusters a) as [k|]; [|discriminate].
    unfold bind, emit, lift. simpl.
    destruct (kmeans_fit_predict k E) as [ls|]; simpl; [|discriminate].
    intros [= -> ->]. destruct (check_labels labels n) as [[]|]; reflexivity.
  - unfold query_embeddings_of.
    destruct (query_instruction a) as [qi|]; [|discriminate].
    unfold call_encode, bind, emit, lift. simpl. rewrite length_map.
    destruct (encode model _ _) as [Q|]; simpl; [|discriminate].
    destruct (map_result _ E) as [ls|]; simpl; [|discriminate].
    intros [= -> <-]. destruct (check_labels labels _) as [[]|]; reflexivity.
Qed.

(** C3 (amended). In both strategies the labels are checked right after
    they are computed: the run goes on exactly when [n - 1] and [0] both
    occur among the labels and no label lies outside [0 .. n-1]; otherwise
    [assign_labels], and with it [main], stops with an exception
    ([AssertionError], or [ValueError] when there is no label at all), the
    trace ending with the call that computed the labels, so that nothing is
    drawn. *)
Theorem C3_min_max_check_or_abort
    (a : Args) (method : Method) (model : Model) (E : list vec)
    (labels : list Z) (n : Z) (w : world) :
  raw_labels a method model E = Ok (labels, n) →
  let w1 := mkWorld (cache w) (trace w ++ strategy_events a method) in
  (check_labels labels n = Ok tt ↔
     (n - 1) ∈ labels ∧ 0 ∈ labels ∧ ∀ l, l ∈ labels → 0 ≤ l ≤ n - 1)
  ∧ (check_labels labels n = Ok tt →
     assign_labels a method model E w = (Ok (labels, n), w1))
  ∧ (check_labels labels n ≠ Ok tt →
     ∃ e, (e = AssertionError ∨ e = ValueError ∧ labels = [])
          ∧ assign_labels a method model E w = (Raise e, w1)
          ∧ ∀ w0 wm ds,
              validate a = Ok method →
              call_load_model ("hkunlp/" +:+ model_key a) w0 = (Ok model, wm) →
              get_dataset_embeddings a (instruction a) model wm
                = (Ok (ds, E), w) →
              main a w0 = (Raise e, w1)).
Proof.
  intros Hraw w1. split; [apply check_labels_ok_iff|].
  pose proof (assign_labels_raw a method model E labels n w Hraw) as Hrun.
  fold w1 in Hrun. split.
  - intros Hok. rewrite Hrun, Hok. reflexivity.
  - intros Hbad.
    assert (∃ e, (e = AssertionError ∨ e = ValueError ∧ labels = [])
                 ∧ check_labels labels n = Raise e) as (e & He & Hchk).
    { destruct (check_labels_raise labels n Hbad) as [[-> Hc]|[_ Hc]];
        rewrite Hc; eauto. }
    exists e. split; [exact He|]. rewrite Hchk in Hrun. simpl in Hrun.
    split; [exact Hrun|].
    intros w0 wm ds Hval Hmodel Hde.
    rewrite main_unfold, Hval.
    rewrite (bind_step _ _ _ _ _ Hmodel), (bind_step _ _ _ _ _ Hde).
    simpl. apply bind_raise. exact Hrun.
Qed.

(** ** Nearest-query labels *)

Lemma lookup_map {A B} (f : A → B) (l : list A) (i : nat) :
  map f l !! i = f <$> (l !! i).
Proof.
  revert i. induction l as [|a l IH]; intros [|i]; simpl; try reflexivity.
  apply IH.
Qed.

Lemma assign_labels_ok_raw (a : Args) (method : Method) (model : Model)
    (E : list vec) (ln : list Z * Z) (w w' : world) :
  assign_labels a method model E w = (Ok ln, w') →
  raw_labels a method model E = Ok ln.
Proof.
  destruct method; unfold raw_labels, assign_labels.
  - destruct (n_clusters a) as [k|]; [|discriminate].
    unfold bind, emit, lift. simpl.
    destruct (kmeans_fit_predict k E) as [ls|]; simpl; [|discriminate].
    destruct (check_labels ls k) as [[]|]; [|discriminate].
    intros [= <- _]. reflexivity.
  - unfold query_embeddings_of.
    destruct (query_instruction a) as [qi|]; [|discriminate].
    unfold call_encode, bind, emit, lift. simpl. rewrite length_map.
    destruct (encode model _ _) as [Q|]; simpl; [|discriminate].
    destruct (map_result _ E) as [ls|]; simpl; [|discriminate].
    destruct (check_labels ls _) as [[]|]; [|discriminate].
    intros [= <- _]. reflexivity.
Qed.

Lemma raw_labels_query_ok (a : Args) (model : Model) (E : list vec)
    (labels : list Z) (n : Z) :
  raw_labels a query model E = Ok (labels, n) →
  ∃ Q, query_embeddings_of a model = Ok Q
       ∧ n = Z.of_nat (length (queries a))
       ∧ map_result (get_label (length (queries a)) Q) E = Ok labels.
Proof.
  unfold raw_labels. intros Hraw.
  apply rbind_ok in Hraw as (Q & HQ & Hraw).
  apply rbind_ok in Hraw as (ls & Hls & [= <- <-]).
  eauto.
Qed.

Lemma get_label_ok (nq : nat) (Q : list vec) (e : vec) (l : Z) :
  get_label nq Q e = Ok l ↔
  length Q = nq ∧ ∃ r, argmax (map (cos_sim e) Q) = Ok r ∧ l = Z.of_nat r.
Proof.
  unfold get_label. rewrite length_map. case_bool_decide as Hlen.
  - rewrite rbind_ok. split.
    + intros (r & Hr & [= <-]). eauto.
    + intros (_ & r & Hr & ->). eauto.
  - split; [discriminate | intros [? _]; contradiction].
Qed.

(** The label is computed, whatever the embedding, as soon as the query
    matrix has one row per query and there is a query. *)
Lemma get_label_total (nq : nat) (Q : list vec) (e : vec) :
  length Q = nq → nq ≠ 0%nat → ∃ l, get_label nq Q e = Ok l.
Proof.
  intros Hlen Hnq. unfold get_label. rewrite length_map.
  rewrite bool_decide_eq_true_2 by exact Hlen.
  destruct Q as [|q Q]; [simpl in Hlen; congruence|]. simpl. eauto.
Qed.

(** In a nearest-query run all labels are computed as soon as the model
    returns one query vector per query. *)
Lemma raw_labels_query_total (a : Args) (model : Model) (E : list vec) Q :
  queries a ≠ [] →
  query_embeddings_of a model = Ok Q →
  length Q = length (queries a) →
  ∃ labels, raw_labels a query model E
            = Ok (labels, Z.of_nat (length (queries a))).
Proof.
  intros Hq HQ Hlen. unfold raw_labels. rewrite HQ. simpl.
  destruct (map_result_all_ok (get_label (length (queries a)) Q) E)
    as [labels Hlabels].
  { intros e _. apply get_label_total; [exact Hlen|].
    destruct (queries a); [congruence | discriminate]. }
  rewrite Hlabels. simpl. eauto.
Qed.

Section FirstMax.

(** Similarity values are strictly and totally ordered up to ties, as
    floating-point numbers other than NaN are. *)
Hypothesis ltb_irrefl : ∀ x, score_ltb x x = false.
Hypothesis ltb_trans : ∀ x y z,
  score_ltb x y = true → score_ltb y z = true → score_ltb x z = true.
Hypothesis ltb_cotrans : ∀ x y z,
  score_ltb x y = true → score_ltb x z = true ∨ score_ltb z y = true.

Lemma argmax_from_spec (l : list score) :
  ∀ (pre : list score) (best : score) (best_i : nat),
    pre !! best_i = Some best →
    (∀ j x, pre !! j = Some x → score_ltb best x = false) →
    (∀ j x, (j < best_i)%nat → pre !! j = Some x → score_ltb x best = true) →
    ∃ s, (pre ++ l) !! argmax_from l (length pre) best best_i = Some s
         ∧ (∀ j x, (pre ++ l) !! j = Some x → score_ltb s x = false)
         ∧ (∀ j x, (j < argmax_from l (length pre) best best_i)%nat →
                   (pre ++ l) !! j = Some x → score_ltb x s = true).
Proof.
  induction l as [|s l IH]; intros pre best best_i Hbest Hmax Hfirst; simpl.
  - rewrite app_nil_r. eauto.
  - replace (S (length pre)) with (length (pre ++ [s]))
      by (rewrite length_app; simpl; lia).
    rewrite (cons_middle s pre l), app_assoc.
    destruct (score_ltb best s) eqn:Hlt.
    + apply IH.
      * apply list_lookup_middle. reflexivity.
      * intros j x Hj. apply lookup_snoc_Some in Hj as [[_ Hj]|[_ <-]].
        -- destruct (score_ltb s x) eqn:Hsx; [|reflexivity].
           rewrite <- (Hmax j x Hj). symmetry. by eapply ltb_trans.
        -- apply ltb_irrefl.
      * intros j x Hlt_j Hj. rewrite lookup_app_l in Hj by exact Hlt_j.
        destruct (ltb_cotrans best s x Hlt) as [Hbx|Hxs]; [|exact Hxs].
        rewrite (Hmax j x Hj) in Hbx. discriminate.
    + apply IH.
      * rewrite lookup_app_l by (by eapply lookup_lt_Some). exact Hbest.
      * intros j x Hj. apply lookup_snoc_Some in Hj as [[_ Hj]|[_ <-]];
          [by eapply Hmax | exact Hlt].
      * intros j x Hlt_j Hj. apply (Hfirst j x Hlt_j).
        rewrite lookup_app_l in Hj; [exact Hj|].
        apply lookup_lt_Some in Hbest. lia.
Qed.

Lemma argmax_spec (l : list score) (r : nat) :
  argmax l = Ok r →
  ∃ s, l !! r = Some s
       ∧ (∀ j x, l !! j = Some x → score_ltb s x = false)
       ∧ (∀ j x, (j < r)%nat → l !! j = Some x → score_ltb x s = true).
Proof.
  destruct l as [|s0 l]; simpl; [discriminate|]. intros [= <-].
  apply (argmax_from_spec l [s0] s0 0%nat).
  - reflexivity.
  - intros [|j] x Hj; simpl in Hj; [|by destruct j].
    injection Hj as <-. apply ltb_irrefl.
  - intros j x Hj. lia.
Qed.

(** The labels of a nearest-query run, before they are checked. *)
Lemma raw_labels_first_max
    (a : Args) (model : Model) (E : list vec) (labels : list Z) (n : Z) :
  raw_labels a query model E = Ok (labels, n) →
  ∃ Q, query_embeddings_of a model = Ok Q
       ∧ n = Z.of_nat (length (queries a))
       ∧ length labels = length E
       ∧ ∀ i e, E !! i = Some e →
           ∃ r q_r,
             labels !! i = Some (Z.of_nat r)
             ∧ Q !! r = Some q_r
             ∧ (∀ j q, Q !! j = Some q →
                  score_ltb (cos_sim e q_r) (cos_sim e q) = false)
             ∧ (∀ j q, (j < r)%nat → Q !! j = Some q →
                  score_ltb (cos_sim e q) (cos_sim e q_r) = true).
Proof.
  intros Hraw. apply raw_labels_query_ok in Hraw as (Q & HQ & Hn & Hmap).
  exists Q. split; [exact HQ|]. split; [exact Hn|].
  split; [by eapply map_result_ok_length|].
  intros i e Hi.
  destruct (map_result_ok_lookup _ _ _ _ _ Hmap Hi) as (l & Hl & Hlabel).
  apply get_label_ok in Hlabel as (_ & r & Hr & ->).
  apply argmax_spec in Hr as (s & Hs & Hmax & Hfirst).
  rewrite lookup_map in Hs.
  destruct (Q !! r) as [q_r|] eqn:Hq_r; [|discriminate]. injection Hs as <-.
  exists r, q_r. split; [exact Hl|]. split; [exact Hq_r|]. split.
  - intros j q Hq. apply (Hmax j). rewrite lookup_map, Hq. reflexivity.
  - intros j q Hj Hq. apply (Hfirst j); [exact Hj|].
    rewrite lookup_map, Hq. reflexivity.
Qed.

(** C5. Whenever the nearest-query branch of [main] ([assign_labels] with
    method [query]) returns labels, there is one label per item, and the
    label of item [i] is the index [r] of a query vector to which no other
    query vector is more similar, every query vector before [r] being
    strictly less similar: the first index of the maximal cosine
    similarity.  And the branch does compute such labels as soon as the
    model returns one vector per query and there is a query: its outcome
    is then the outcome of the min/max check on these labels.  [main]
    makes this very call, on the matrix the pipeline returned. *)
Theorem C5_label_is_first_index_of_max_similarity
    (a : Args) (model : Model) (E : list vec) (w : world) :
  (∀ labels n w',
     assign_labels a query model E w = (Ok (labels, n), w') →
     ∃ Q, query_embeddings_of a model = Ok Q
          ∧ n = Z.of_nat (length (queries a))
          ∧ length labels = length E
          ∧ ∀ i e, E !! i = Some e →
              ∃ r q_r,
                labels !! i = Some (Z.of_nat r)
                ∧ Q !! r = Some q_r
                ∧ (∀ j q, Q !! j = Some q →
                     score_ltb (cos_sim e q_r) (cos_sim e q) = false)
                ∧ (∀ j q, (j < r)%nat → Q !! j = Some q →
                     score_ltb (cos_sim e q) (cos_sim e q_r) = true))
  ∧ (∀ Q,
       query_embeddings_of a model = Ok Q →
       length Q = length (queries a) → queries a ≠ [] →
       ∃ labels,
         length labels = length E
         ∧ (∀ i e, E !! i = Some e →
              ∃ r q_r,
                labels !! i = Some (Z.of_nat r)
                ∧ Q !! r = Some q_r
                ∧ (∀ j q, Q !! j = Some q →
                     score_ltb (cos_sim e q_r) (cos_sim e q) = false)
                ∧ (∀ j q, (j < r)%nat → Q !! j = Some q →
                     score_ltb (cos_sim e q) (cos_sim e q_r) = true))
         ∧ assign_labels a query model E w
           = (rbind (check_labels labels (Z.of_nat (length (queries a))))
                    (λ _, Ok (labels, Z.of_nat (length (queries a)))),
              mkWorld (cache w) (trace w ++ strategy_events a query)))
  ∧ (∀ w0 wm ds,
       validate a = Ok query →
       call_load_model ("hkunlp/" +:+ model_key a) w0 = (Ok model, wm) →
       get_dataset_embeddings a (instruction a) model wm = (Ok (ds, E), w) →
       main a w0
       = bind (assign_labels a query model E)
              (λ ln, visualize a query ln.1 ln.2 E) w).
Proof.
  split; [|split].
  - intros labels n w' Hrun.
    apply assign_labels_ok_raw in Hrun.
    by apply raw_labels_first_max.
  - intros Q HQ Hlen Hq.
    destruct (raw_labels_query_total a model E Q Hq HQ Hlen)
      as [labels Hraw].
    destruct (raw_labels_first_max _ _ _ _ _ Hraw)
      as (Q' & HQ' & _ & Hlabels & Hrows).
    rewrite HQ in HQ'. injection HQ' as <-.
    exists labels. split; [exact Hlabels|]. split; [exact Hrows|].
    by apply assign_labels_raw.
  - intros w0 wm ds Hval Hmodel Hde.
    rewrite main_unfold, Hval.
    rewrite (bind_step _ _ _ _ _ Hmodel), (bind_step _ _ _ _ _ Hde).
    reflexivity.
Qed.

End FirstMax.

(** C9. Take two nearest-query runs with the same query embeddings whose
    embedding matrices hold the same vector at row [i], whatever their
    other rows (and however many there are): both give item [i] the same
    label, the one [get_label] computes from that vector alone.  The
    labels are those [assign_labels] computes in each run, and returns
    when they pass its check. *)
Theorem C9_label_depends_only_on_own_row
    (a1 a2 : Args) (m1 m2 : Model) (E1 E2 : list vec)
    (L1 L2 : list Z) (n1 n2 : Z) (i : nat) (e : vec) :
  query_embeddings_of a1 m1 = query_embeddings_of a2 m2 →
  raw_labels a1 query m1 E1 = Ok (L1, n1) →
  raw_labels a2 query m2 E2 = Ok (L2, n2) →
  E1 !! i = Some e → E2 !! i = Some e →
  ∃ Q l, query_embeddings_of a1 m1 = Ok Q
         ∧ get_label (length Q) Q e = Ok l
         ∧ L1 !! i = Some l ∧ L2 !! i = Some l
         ∧ (∀ w, assign_labels a1 query m1 E1 w
                 = (rbind (check_labels L1 n1) (λ _, Ok (L1, n1)),
                    mkWorld (cache w) (trace w ++ strategy_events a1 query)))
         ∧ (∀ w, assign_labels a2 query m2 E2 w
                 = (rbind (check_labels L2 n2) (λ _, Ok (L2, n2)),
                    mkWorld (cache w) (trace w ++ strategy_events a2 query))).
Proof.
  intros HQ Hraw1 Hraw2 Hi1 Hi2.
  pose proof (λ w, assign_labels_raw a1 query m1 E1 L1 n1 w Hraw1) as Hrun1.
  pose proof (λ w, assign_labels_raw a2 query m2 E2 L2 n2 w Hraw2) as Hrun2.
  apply raw_labels_query_ok in Hraw1 as (Q & HQ1 & _ & Hmap1).
  apply raw_labels_query_ok in Hraw2 as (Q' & HQ2 & _ & Hmap2).
  rewrite HQ1, HQ2 in HQ. injection HQ as <-.
  destruct (map_result_ok_lookup _ _ _ _ _ Hmap1 Hi1) as (l1 & Hl1 & Hlab1).
  destruct (map_result_ok_lookup _ _ _ _ _ Hmap2 Hi2) as (l2 & Hl2 & Hlab2).
  pose proof Hlab1 as Hlab1'.
  apply get_label_ok in Hlab1' as (Hlen1 & r1 & Hr1 & ->).
  apply get_label_ok in Hlab2 as (Hlen2 & r2 & Hr2 & ->).
  rewrite Hr1 in Hr2. injection Hr2 as <-.
  exists Q, (Z.of_nat r1). rewrite Hlen1. eauto 10.
Qed.

(** ** The cached embedding call *)

Lemma get_dataset_embedding_hit model name mode ds instr b w m :
  cache w !! (name, mode, ds, instr) = Some m →
  get_dataset_embedding model name mode ds instr b w = (Ok m, w).
Proof. intros Hhit. unfold get_dataset_embedding. rewrite Hhit. reflexivity. Qed.

Lemma get_dataset_embedding_body_run model mode ds instr b w :
  get_dataset_embedding_body model mode ds instr b w =
  match derive_sentences mode instr ds with
  | Ok sentences =>
      (encode model sentences b,
       mkWorld (cache w) (trace w ++ [EvEncode sentences b]))
  | Raise e => (Raise e, w)
  end.
Proof.
  unfold get_dataset_embedding_body, bind, lift, call_encode, emit.
  destruct (derive_sentences mode instr ds); reflexivity.
Qed.

Lemma get_dataset_embedding_miss model name mode ds instr b w :
  cache w !! (name, mode, ds, instr) = None →
  get_dataset_embedding model name mode ds instr b w =
  match derive_sentences mode instr ds with
  | Ok sentences =>
      match encode model sentences b with
      | Ok m =>
          (Ok m, mkWorld (<[(name, mode, ds, instr) := m]> (cache w))
                         (trace w ++ [EvEncode sentences b]))
      | Raise e =>
          (Raise e, mkWorld (cache w) (trace w ++ [EvEncode sentences b]))
      end
  | Raise e => (Raise e, w)
  end.
Proof.
  intros Hmiss. unfold get_dataset_embedding. rewrite Hmiss.
  rewrite get_dataset_embedding_body_run.
  destruct (derive_sentences mode instr ds) as [S|]; [|reflexivity].
  destruct (encode model S b); reflexivity.
Qed.

(** A call that returns leaves its matrix in the cache under its key and
    touches no other entry. *)
Lemma get_dataset_embedding_ok model name mode ds instr b w m w' :
  get_dataset_embedding model name mode ds instr b w = (Ok m, w') →
  cache w' !! (name, mode, ds, instr) = Some m
  ∧ (∀ k, k ≠ (name, mode, ds, instr) → cache w' !! k = cache w !! k)
  ∧ cache w ⊆ cache w'
  ∧ ((cache w !! (name, mode, ds, instr) = Some m ∧ w' = w)
     ∨ (cache w !! (name, mode, ds, instr) = None
        ∧ ∃ sentences,
            derive_sentences mode instr ds = Ok sentences
            ∧ encode model sentences b = Ok m
            ∧ w' = mkWorld (<[(name, mode, ds, instr) := m]> (cache w))
                     (trace w ++ [EvEncode sentences b]))).
Proof.
  destruct (cache w !! (name, mode, ds, instr)) as [m0|] eqn:Hk.
  - rewrite (get_dataset_embedding_hit _ _ _ _ _ _ _ _ Hk).
    intros [= -> ->]. repeat split; eauto.
  - rewrite (get_dataset_embedding_miss _ _ _ _ _ _ _ Hk).
    destruct (derive_sentences mode instr ds) as [S|] eqn:HS; [|discriminate].
    destruct (encode model S b) as [m1|] eqn:Hm; [|discriminate].
    intros [= -> <-]. simpl. split; [apply lookup_insert_eq|].
    split; [intros k Hne; by apply lookup_insert_ne|].
    split; [by apply insert_subseteq|].
    right. split; [reflexivity|]. eauto.
Qed.

Lemma get_dataset_embedding_cache_mono model name mode ds instr b w r w' :
  get_dataset_embedding model name mode ds instr b w = (r, w') →
  cache w ⊆ cache w'.
Proof.
  destruct r as [m|e].
  { intros Hrun. apply get_dataset_embedding_ok in Hrun. tauto. }
  destruct (cache w !! (name, mode, ds, instr)) as [m0|] eqn:Hk.
  - rewrite (get_dataset_embedding_hit _ _ _ _ _ _ _ _ Hk). discriminate.
  - rewrite (get_dataset_embedding_miss _ _ _ _ _ _ _ Hk).
    destruct (derive_sentences mode instr ds) as [S|]; [|by intros [= _ <-]].
    destruct (encode model S b); [discriminate | by intros [= _ <-]].
Qed.

(** *** The program only adds to the cache *)

Lemma cache_mono_ret {A} (a : A) : cache_mono (ret a).
Proof. intros w r w' [= _ <-]. done. Qed.

Lemma cache_mono_raise {A} (e : exn) : cache_mono (@raise _ A e).
Proof. intros w r w' [= _ <-]. done. Qed.

Lemma cache_mono_lift {A} (x : result A) : cache_mono (lift x).
Proof. intros w r w' [= _ <-]. done. Qed.

Lemma cache_mono_emit (e : event) : cache_mono (emit e).
Proof. intros w r w' [= _ <-]. done. Qed.

Lemma cache_mono_bind {A B} (m : M A) (k : A → M B) :
  cache_mono m → (∀ a, cache_mono (k a)) → cache_mono (bind m k).
Proof.
  intros Hm Hk w r w'. unfold bind.
  destruct (m w) as [[a|e] w1] eqn:Hrun.
  - intros Hrest. etrans; [by eapply Hm | by eapply Hk].
  - intros [= _ <-]. by eapply Hm.
Qed.

Lemma cache_mono_get_dataset_embedding model name mode ds instr b :
  cache_mono (get_dataset_embedding model name mode ds instr b).
Proof. intros w r w'. apply get_dataset_embedding_cache_mono. Qed.

Lemma cache_mono_embed_loop a instr model files :
  ∀ Ds Es, cache_mono (embed_loop a instr model files Ds Es).
Proof.
  induction files as [|f rest IH]; intros Ds Es; simpl.
  - apply cache_mono_ret.
  - apply cache_mono_bind.
    + apply cache_mono_bind; [apply cache_mono_emit|].
      intros _. apply cache_mono_lift.
    + intros d. apply cache_mono_bind;
        [apply cache_mono_get_dataset_embedding|].
      intros e. apply IH.
Qed.

Lemma cache_mono_plot_loop a method labels xs ys range :
  cache_mono (plot_loop a method labels xs ys range).
Proof.
  induction range as [|l rest IH]; simpl; [apply cache_mono_ret|].
  apply cache_mono_bind; [|intros _; exact IH].
  unfold plot_label.
  repeat (apply cache_mono_bind; [|intros ?]);
    first [apply cache_mono_lift | apply cache_mono_emit].
Qed.

Lemma cache_mono_assign_labels a method model E :
  cache_mono (assign_labels a method model E).
Proof.
  destruct method; simpl.
  - destruct (n_clusters a); [|apply cache_mono_raise].
    repeat (apply cache_mono_bind; [|intros ?]);
      first [apply cache_mono_lift | apply cache_mono_emit | apply cache_mono_ret].
  - destruct (query_instruction a); [|apply cache_mono_raise].
    unfold call_encode.
    repeat (apply cache_mono_bind; [|intros ?]);
      first [apply cache_mono_lift | apply cache_mono_emit | apply cache_mono_ret].
Qed.

Lemma cache_mono_main (a : Args) : cache_mono (main a).
Proof.
  unfold main.
  apply cache_mono_bind; [apply cache_mono_lift|]. intros method.
  apply cache_mono_bind.
  { unfold call_load_model.
    apply cache_mono_bind; [apply cache_mono_emit|].
    intros _. apply cache_mono_lift. }
  intros model. apply cache_mono_bind.
  { unfold get_dataset_embeddings.
    apply cache_mono_bind; [apply cache_mono_embed_loop|]. intros acc.
    repeat (apply cache_mono_bind; [|intros ?]);
      first [apply cache_mono_lift | apply cache_mono_ret]. }
  intros de. apply cache_mono_bind; [apply cache_mono_assign_labels|].
  intros ln. unfold visualize.
  apply cache_mono_bind; [apply cache_mono_emit|]. intros _.
  apply cache_mono_bind; [apply cache_mono_lift|]. intros vis.
  apply cache_mono_bind; [apply cache_mono_plot_loop|]. intros _.
  repeat (apply cache_mono_bind; [|intros ?]); apply cache_mono_emit.
Qed.

Lemma derive_sentences_rows (mode instr : string) (ds : Dataset) :
  rows ds ≠ [] →
  derive_sentences mode instr ds
  = map_result (λ row, map_fn mode instr (example_of ds row)) (rows ds).
Proof. unfold derive_sentences. destruct (rows ds); [congruence|reflexivity]. Qed.

Lemma derive_sentences_no_rows (mode instr : string) (ds : Dataset) :
  rows ds = [] →
  derive_sentences mode instr ds
  = if bool_decide ("pair"%string ∈ column_names ds) then Ok []
    else Raise (KeyError "pair").
Proof. unfold derive_sentences. by intros ->. Qed.

(** The sentences depend on the table of the dataset, not on its
    fingerprint. *)
Lemma derive_sentences_same_table (mode instr : string) (ds ds' : Dataset) :
  rows ds' = rows ds → column_names ds' = column_names ds →
  derive_sentences mode instr ds' = derive_sentences mode instr ds.
Proof.
  intros Hrows Hcols. unfold derive_sentences, example_of.
  rewrite Hrows, Hcols. reflexivity.
Qed.

(** C2 (amended). The cache key is made of the model name, the embedding
    mode, the dataset object and the instruction; the model handle and the
    batch size are no part of it.  Once a call has returned a matrix,
    every later call with the same model name, embedding mode, dataset
    object and instruction returns that very matrix, whatever handle and
    batch size it is given, without running the model ("later": the cache
    still holds what it held after the first call, as it does after any
    run of [main] in between).  A dataset with the same table and another
    fingerprint is another key: when the cache has no entry for it, the
    call derives the same sentences and embeds them anew, with its own
    handle and batch size. *)
Theorem C2_same_key_same_matrix
    (m1 m2 : Model) (name mode : string) (ds : Dataset) (instr : string)
    (b1 b2 : Z) (w w1 w2 : world) (M1 : list vec) :
  get_dataset_embedding m1 name mode ds instr b1 w = (Ok M1, w1) →
  cache w1 ⊆ cache w2 →
  get_dataset_embedding m2 name mode ds instr b2 w2 = (Ok M1, w2)
  ∧ cache w1 !! (name, mode, ds, instr) = Some M1
  ∧ (∀ k, k ≠ (name, mode, ds, instr) → cache w1 !! k = cache w !! k)
  ∧ (∀ a r w3,
       main a w2 = (r, w3) →
       get_dataset_embedding m2 name mode ds instr b2 w3 = (Ok M1, w3))
  ∧ ∀ ds',
      rows ds' = rows ds → column_names ds' = column_names ds →
      cache w2 !! (name, mode, ds', instr) = None →
      get_dataset_embedding m2 name mode ds' instr b2 w2
      = match derive_sentences mode instr ds with
        | Ok sentences =>
            match encode m2 sentences b2 with
            | Ok m =>
                (Ok m, mkWorld (<[(name, mode, ds', instr) := m]> (cache w2))
                               (trace w2 ++ [EvEncode sentences b2]))
            | Raise e =>
                (Raise e,
                 mkWorld (cache w2) (trace w2 ++ [EvEncode sentences b2]))
            end
        | Raise e => (Raise e, w2)
        end.
Proof.
  intros Hfirst Hlater.
  apply get_dataset_embedding_ok in Hfirst as (Hstored & Hothers & _ & _).
  assert (Hhit : ∀ w', cache w1 ⊆ cache w' →
            get_dataset_embedding m2 name mode ds instr b2 w' = (Ok M1, w')).
  { intros w' Hsub. apply get_dataset_embedding_hit.
    eapply lookup_weaken; [exact Hstored | exact Hsub]. }
  split; [by apply Hhit|]. split; [exact Hstored|]. split; [exact Hothers|].
  split.
  - intros a r w3 Hmain. apply Hhit.
    etrans; [exact Hlater|]. by eapply cache_mono_main.
  - intros ds' Hrows Hcols Hmiss.
    rewrite (get_dataset_embedding_miss _ _ _ _ _ _ _ Hmiss).
    rewrite (derive_sentences_same_table mode instr ds ds' Hrows Hcols).
    reflexivity.
Qed.

(** ** Unrecognised embedding modes *)

Lemma map_fn_invalid_mode (mode instr : string) (ex : example) :
  mode ∉ valid_modes → map_fn mode instr ex = Raise AssertionError.
Proof.
  unfold valid_modes. rewrite !not_elem_of_cons.
  intros (H1 & H2 & H3 & H4 & _). unfold map_fn.
  rewrite !bool_decide_eq_false_2 by assumption. reflexivity.
Qed.

Lemma map_fn_ok_valid_mode (mode instr : string) (ex : example) p :
  map_fn mode instr ex = Ok p → mode ∈ valid_modes.
Proof.
  intros Hok. destruct (decide (mode ∈ valid_modes)) as [Hin|Hout];
    [exact Hin|].
  rewrite (map_fn_invalid_mode _ _ _ Hout) in Hok. discriminate.
Qed.

Lemma cache_sound_empty : cache_sound ∅.
Proof. intros k m Hk. rewrite lookup_empty in Hk. discriminate. Qed.

Lemma get_dataset_embedding_cache_sound model name mode ds instr b w r w' :
  cache_sound (cache w) →
  get_dataset_embedding model name mode ds instr b w = (r, w') →
  cache_sound (cache w').
Proof.
  intros Hsound.
  destruct (cache w !! (name, mode, ds, instr)) as [m0|] eqn:Hk.
  - rewrite (get_dataset_embedding_hit _ _ _ _ _ _ _ _ Hk).
    by intros [= _ <-].
  - rewrite (get_dataset_embedding_miss _ _ _ _ _ _ _ Hk).
    destruct (derive_sentences mode instr ds) as [S|] eqn:HS;
      [|by intros [= _ <-]].
    destruct (encode model S b) as [m1|]; [|by intros [= _ <-]].
    intros [= _ <-]. simpl. intros k m Hm.
    destruct (decide (k = (name, mode, ds, instr))) as [->|Hne].
    + exists S. exact HS.
    + rewrite lookup_insert_ne in Hm by done. by eapply Hsound.
Qed.

(** C6 (amended). With an embedding mode outside the four known ones
    [map_fn] raises [AssertionError] on every row: there is no fallback
    mode.  So the function body and the cached function stop before the
    model is called, in an unchanged world (no [encode] call, no cache
    entry): with [AssertionError] on a dataset that has rows, with
    [KeyError] for the column [pair] on a dataset without rows.  The one
    dataset that escapes is the one without rows that comes with a column
    [pair]: nothing is derived, nothing raises, and the model is called on
    the empty list.  The cache is taken to hold only what earlier calls
    stored. *)
Theorem C6_unknown_mode_fails_before_encode (mode : string) :
  mode ∉ valid_modes →
  (∀ instr ex, map_fn mode instr ex = Raise AssertionError)
  ∧ (∀ model ds instr b w,
       rows ds ≠ [] →
       get_dataset_embedding_body model mode ds instr b w
       = (Raise AssertionError, w))
  ∧ (∀ model name ds instr b w,
       rows ds ≠ [] → cache_sound (cache w) →
       get_dataset_embedding model name mode ds instr b w
       = (Raise AssertionError, w))
  ∧ (∀ model ds instr b w,
       rows ds = [] → "pair"%string ∉ column_names ds →
       get_dataset_embedding_body model mode ds instr b w
       = (Raise (KeyError "pair"), w))
  ∧ (∀ model name ds instr b w,
       rows ds = [] → "pair"%string ∉ column_names ds →
       cache_sound (cache w) →
       get_dataset_embedding model name mode ds instr b w
       = (Raise (KeyError "pair"), w))
  ∧ (∀ model ds instr b w,
       rows ds = [] → "pair"%string ∈ column_names ds →
       get_dataset_embedding_body model mode ds instr b w
       = (encode model [] b, mkWorld (cache w) (trace w ++ [EvEncode [] b]))).
Proof.
  intros Hmode.
  assert (Hderive : ∀ instr ds, rows ds ≠ [] →
            derive_sentences mode instr ds = Raise AssertionError).
  { intros instr ds Hne. rewrite derive_sentences_rows by exact Hne.
    destruct (rows ds) as [|row rs]; [congruence|].
    apply map_result_first_raise. by apply map_fn_invalid_mode. }
  assert (Hpair : ∀ instr ds, rows ds = [] → "pair"%string ∉ column_names ds →
            derive_sentences mode instr ds = Raise (KeyError "pair")).
  { intros instr ds Hnil Hno. rewrite derive_sentences_no_rows by exact Hnil.
    by rewrite bool_decide_eq_false_2. }
  assert (Hcached : ∀ model name ds instr b w e,
            derive_sentences mode instr ds = Raise e →
            cache_sound (cache w) →
            get_dataset_embedding model name mode ds instr b w = (Raise e, w)).
  { intros model name ds instr b w e He Hsound.
    destruct (cache w !! (name, mode, ds, instr)) as [m0|] eqn:Hk.
    - destruct (Hsound _ _ Hk) as (S & HS).
      unfold key_mode, key_instruction, key_dataset in HS. simpl in HS.
      rewrite He in HS. discriminate.
    - rewrite (get_dataset_embedding_miss _ _ _ _ _ _ _ Hk), He.
      reflexivity. }
  split; [intros; by apply map_fn_invalid_mode|].
  split.
  { intros model ds instr b w Hne.
    rewrite get_dataset_embedding_body_run, Hderive by exact Hne.
    reflexivity. }
  split.
  { intros model name ds instr b w Hne Hsound.
    apply Hcached; [by apply Hderive | exact Hsound]. }
  split.
  { intros model ds instr b w Hnil Hno.
    rewrite get_dataset_embedding_body_run, Hpair by assumption.
    reflexivity. }
  split.
  { intros model name ds instr b w Hnil Hno Hsound.
    apply Hcached; [by apply Hpair | exact Hsound]. }
  intros model ds instr b w Hnil Hin.
  rewrite get_dataset_embedding_body_run, derive_sentences_no_rows
    by exact Hnil.
  rewrite bool_decide_eq_true_2 by exact Hin. reflexivity.
Qed.

(** ** The pipeline loop *)

Lemma call_load_dataset_run (file : string) (w : world) :
  call_load_dataset file w
  = (load_dataset file, mkWorld (cache w) (trace w ++ [EvLoadDataset file])).
Proof. reflexivity. Qed.

(** The loop over a list of files is the loop over a prefix, continued on
    the rest from the accumulators reached. *)
Lemma embed_loop_app a instr model (f1 f2 : list string) Ds Es w :
  embed_loop a instr model (f1 ++ f2) Ds Es w
  = bind (embed_loop a instr model f1 Ds Es)
         (λ acc, embed_loop a instr model f2 acc.1 acc.2) w.
Proof.
  revert Ds Es w. induction f1 as [|f f1 IH]; intros Ds Es w; simpl.
  - reflexivity.
  - unfold bind in *. destruct (call_load_dataset f w) as [[d|e] w1];
      [|reflexivity].
    destruct (get_dataset_embedding _ _ _ _ _ _ w1) as [[m|e] w2];
      [|reflexivity].
    apply IH.
Qed.

Lemma embed_loop_files_run a instr model (files : list string) :
  ∀ Ds0 Es0 w Ds Es w',
    embed_loop a instr model files Ds0 Es0 w = (Ok (Ds, Es), w') ↔
    ∃ Ds1 Es1,
      files_run a instr model files w Ds1 Es1 w'
      ∧ Ds = Ds0 ++ Ds1 ∧ Es = Es0 ++ Es1.
Proof.
  induction files as [|f rest IH]; intros Ds0 Es0 w Ds Es w'; simpl.
  - split.
    + intros [= <- <- <-]. exists [], []. rewrite !app_nil_r.
      split; [constructor | done].
    + intros (Ds1 & Es1 & Hrun & -> & ->). inversion Hrun; subst.
      rewrite !app_nil_r. reflexivity.
  - rewrite bind_ok. split.
    + intros (d & w1 & Hload & Hrest).
      apply bind_ok in Hrest as (e & w2 & Hemb & Hrest).
      apply IH in Hrest as (Ds1 & Es1 & Hrun & -> & ->).
      exists (d :: Ds1), (e :: Es1). rewrite <- !app_assoc.
      split; [by econstructor | done].
    + intros (Ds1 & Es1 & Hrun & -> & ->). inversion Hrun; subst.
      eexists _, _. split; [eassumption|].
      apply bind_ok. eexists _, _. split; [eassumption|].
      apply IH. eexists _, _. split; [eassumption|].
      rewrite <- !app_assoc. done.
Qed.

Lemma files_run_lengths a instr model files w Ds Es w' :
  files_run a instr model files w Ds Es w' →
  length Ds = length files ∧ length Es = length files.
Proof. induction 1; simpl; [done | lia]. Qed.

Lemma files_run_loaded a instr model files w Ds Es w' :
  files_run a instr model files w Ds Es w' →
  Forall2 (λ f d, load_dataset f = Ok d) files Ds.
Proof.
  induction 1 as [|f rest w w1 w2 w3 d e Ds Es Hload _ _ IH]; constructor.
  - rewrite call_load_dataset_run in Hload. by injection Hload as ->.
  - exact IH.
Qed.

Lemma concatenate_ok {A} (parts : list (list A)) (l : list A) :
  concatenate parts = Ok l ↔ parts ≠ [] ∧ l = concat parts.
Proof.
  destruct parts as [|p parts]; simpl.
  - split; [discriminate | intros [? _]; congruence].
  - split; [intros [= <-]; done | intros [_ ->]; done].
Qed.

Lemma concatenate_datasets_ok (dsets : list Dataset) (ds : Dataset) :
  concatenate_datasets dsets = Ok ds ↔ dsets ≠ [] ∧ ds = joined dsets.
Proof.
  destruct dsets as [|d dsets]; simpl.
  - split; [discriminate | intros [? _]; congruence].
  - split; [intros [= <-]; done | intros [_ ->]; done].
Qed.

Lemma get_dataset_embeddings_ok_iff
    (a : Args) (instr : string) (model : Model) (w w' : world)
    (ds : Dataset) (E : list vec) :
  get_dataset_embeddings a instr model w = (Ok (ds, E), w') ↔
  ∃ Ds Es,
    data_files a ≠ []
    ∧ files_run a instr model (data_files a) w Ds Es w'
    ∧ ds = joined Ds ∧ E = concat Es.
Proof.
  unfold get_dataset_embeddings. rewrite bind_ok. split.
  - intros ([Ds Es] & w1 & Hloop & Hcat). simpl in Hcat.
    apply embed_loop_files_run in Hloop as (Ds1 & Es1 & Hrun & -> & ->).
    simpl in *.
    apply bind_ok in Hcat as (ds' & w2 & Hds & Hcat).
    apply lift_ok in Hds as [Hds ->].
    apply bind_ok in Hcat as (E' & w2 & HE & Hcat).
    apply lift_ok in HE as [HE ->].
    injection Hcat as -> -> ->.
    apply concatenate_datasets_ok in Hds as [Hne ->].
    apply concatenate_ok in HE as [_ ->].
    exists Ds1, Es1. split; [|done].
    apply files_run_lengths in Hrun as [Hlen _].
    intros Hfiles. rewrite Hfiles in Hlen. by destruct Ds1.
  - intros (Ds & Es & Hne & Hrun & -> & ->).
    exists (Ds, Es), w'. split.
    + apply embed_loop_files_run. exists Ds, Es. done.
    + pose proof (files_run_lengths _ _ _ _ _ _ _ _ Hrun) as [HlD HlE].
      simpl. unfold bind, lift, ret.
      destruct (data_files a) as [|f fs]; [congruence|].
      destruct Ds; [discriminate|]. destruct Es; [discriminate|].
      reflexivity.
Qed.

(** C7 (amended). [get_dataset_embeddings] makes no alignment check.  It
    returns exactly when there is at least one data file and every file, in
    turn, loads and is embedded; what it returns is the concatenation of the
    loaded datasets (their rows one after the other, in file order) next to
    the concatenation of the matrices as [get_dataset_embedding] gave them,
    whatever their numbers of rows.  [main] then goes on with the matrix
    alone: the dataset is not looked at again, so that no mismatch can stop
    the run. *)
Theorem C7_pipeline_returns_concatenations_unchecked
    (a : Args) (instr : string) (model : Model) (w w' : world)
    (ds : Dataset) (E : list vec) :
  (get_dataset_embeddings a instr model w = (Ok (ds, E), w') ↔
   ∃ Ds Es,
     data_files a ≠ []
     ∧ files_run a instr model (data_files a) w Ds Es w'
     ∧ ds = joined Ds ∧ rows ds = concat (map rows Ds) ∧ E = concat Es)
  ∧ ∀ method w0,
      validate a = Ok method →
      call_load_model ("hkunlp/" +:+ model_key a) w0 = (Ok model, w) →
      get_dataset_embeddings a (instruction a) model w = (Ok (ds, E), w') →
      main a w0
      = bind (assign_labels a method model E)
             (λ ln, visualize a method ln.1 ln.2 E) w'.
Proof.
  split.
  - rewrite get_dataset_embeddings_ok_iff. split.
    + intros (Ds & Es & Hne & Hrun & -> & ->). exists Ds, Es. done.
    + intros (Ds & Es & Hne & Hrun & -> & _ & ->). exists Ds, Es. done.
  - intros method w0 Hval Hmodel Hde.
    rewrite main_unfold, Hval.
    rewrite (bind_step _ _ _ _ _ Hmodel), (bind_step _ _ _ _ _ Hde).
    reflexivity.
Qed.

(** ** Alignment *)

Lemma concat_lookup_aligned {A B} (Ds : list (list A)) (Es : list (list B)) :
  Forall2 (λ d e, length d = length e) Ds Es →
  ∀ i item, concat Ds !! i = Some item →
    ∃ j k d e v,
      Ds !! j = Some d ∧ Es !! j = Some e
      ∧ d !! k = Some item ∧ e !! k = Some v
      ∧ concat Es !! i = Some v
      ∧ i = (length (concat (take j Ds)) + k)%nat.
Proof.
  induction 1 as [|d e Ds Es Hlen _ IH]; intros i item Hi; simpl in *.
  - destruct i; discriminate.
  - destruct (decide (i < length d)%nat) as [Hlt|Hge].
    + rewrite lookup_app_l in Hi by exact Hlt.
      destruct (lookup_lt_is_Some_2 e i) as [v Hv]; [lia|].
      exists 0%nat, i, d, e, v. simpl.
      rewrite lookup_app_l by lia. done.
    + rewrite lookup_app_r in Hi by lia.
      destruct (IH _ _ Hi) as (j & k & d' & e' & v & HD & HE & Hd & He & Hc & Hik).
      exists (S j), k, d', e', v. simpl.
      rewrite lookup_app_r by lia. rewrite <- Hlen.
      rewrite length_app. repeat split; try done. lia.
Qed.

Lemma Forall2_same_length_concat {A B} (Ds : list (list A)) (Es : list (list B)) :
  Forall2 (λ d e, length d = length e) Ds Es →
  length (concat Es) = length (concat Ds).
Proof. induction 1; simpl; [done|]. rewrite !length_app. lia. Qed.

Lemma Forall2_rows {B} (Ds : list Dataset) (Es : list (list B)) :
  Forall2 (λ d e, length (rows d) = length e) Ds Es →
  Forall2 (λ r e, length r = length e) (map rows Ds) Es.
Proof. induction 1; constructor; auto. Qed.

Lemma joined_rows_length {B} (Ds : list Dataset) (Es : list (list B)) :
  Forall2 (λ d e, length (rows d) = length e) Ds Es →
  length (concat Es) = length (rows (joined Ds)).
Proof.
  intros Hall. simpl. apply Forall2_same_length_concat.
  by apply Forall2_rows.
Qed.

(** Row [i] of a concatenated dataset is row [k] of its [j]-th part, and
    row [i] of the concatenated matrices is row [k] of the [j]-th matrix. *)
Lemma joined_lookup_aligned {B} (Ds : list Dataset) (Es : list (list B)) :
  Forall2 (λ d e, length (rows d) = length e) Ds Es →
  ∀ i item, rows (joined Ds) !! i = Some item →
    ∃ j k d e v,
      Ds !! j = Some d ∧ Es !! j = Some e
      ∧ rows d !! k = Some item ∧ e !! k = Some v
      ∧ concat Es !! i = Some v
      ∧ i = (length (concat (take j (map rows Ds))) + k)%nat.
Proof.
  intros Hall i item Hi. simpl in Hi.
  apply Forall2_rows in Hall.
  destruct (concat_lookup_aligned _ _ Hall _ _ Hi)
    as (j & k & r & e & v & Hr & He & Hk & Hv & Hc & Hik).
  apply list_lookup_fmap_Some in Hr as (d & -> & Hd).
  exists j, k, d, e, v. done.
Qed.

(** *** Rows as embeddings of their items *)

Lemma derive_sentences_length (mode instr : string) (ds : Dataset) sentences :
  derive_sentences mode instr ds = Ok sentences →
  length sentences = length (rows ds).
Proof.
  unfold derive_sentences. destruct (rows ds) as [|r rs] eqn:Hrows.
  - case_bool_decide; [|discriminate]. by intros [= <-].
  - apply map_result_ok_length.
Qed.

Lemma derive_sentences_lookup (mode instr : string) (ds : Dataset)
    sentences i item :
  derive_sentences mode instr ds = Ok sentences →
  rows ds !! i = Some item →
  ∃ pair, sentences !! i = Some pair
          ∧ map_fn mode instr (example_of ds item) = Ok pair.
Proof.
  intros HS Hi. destruct (rows ds) as [|r rs] eqn:Hrows.
  { destruct i; discriminate. }
  rewrite derive_sentences_rows in HS by (rewrite Hrows; discriminate).
  rewrite <- Hrows in Hi.
  exact (map_result_ok_lookup _ _ _ _ _ HS Hi).
Qed.

Lemma getitem_more_columns (e e' : example) (k : string) v :
  ex_keys e ⊆ ex_keys e' → ex_fields e' = ex_fields e →
  getitem e k = Ok v → getitem e' k = Ok v.
Proof.
  intros Hsub Hf. unfold getitem. rewrite Hf.
  case_bool_decide as Hk; [|discriminate].
  rewrite bool_decide_eq_true_2 by (by apply Hsub). done.
Qed.

(** A row that [map_fn] accepts is accepted, with the same result, under
    any larger set of columns. *)
Lemma map_fn_more_columns (mode instr : string) (e e' : example) pair :
  ex_keys e ⊆ ex_keys e' → ex_fields e' = ex_fields e →
  map_fn mode instr e = Ok pair → map_fn mode instr e' = Ok pair.
Proof.
  intros Hsub Hf. unfold map_fn.
  pose proof (getitem_more_columns e e') as Hget.
  repeat case_bool_decide; try discriminate.
  - intros (t & Ht & Hp)%rbind_ok. by rewrite (Hget _ _ Hsub Hf Ht).
  - intros (t & Ht & Hp)%rbind_ok. by rewrite (Hget _ _ Hsub Hf Ht).
  - intros (t & Ht & Hp)%rbind_ok. by rewrite (Hget _ _ Hsub Hf Ht).
  - intros (t & (p & Hgp & (sol & Hgs & Ht)%rbind_ok)%rbind_ok & Hp)%rbind_ok.
    rewrite (Hget _ _ Hsub Hf Hgp). simpl.
    rewrite (Hget _ _ Hsub Hf Hgs). simpl. injection Ht as <-. exact Hp.
Qed.

Lemma joined_columns (Ds : list Dataset) (j : nat) (d : Dataset) :
  Ds !! j = Some d → column_names d ⊆ column_names (joined Ds).
Proof.
  intros Hd k Hk. simpl. apply elem_of_remove_dups.
  apply list_elem_of_In, in_concat. exists (column_names d).
  split; [|by apply list_elem_of_In].
  apply in_map, list_elem_of_In. by eapply list_elem_of_lookup_2.
Qed.

Section RowWise.

(** The model embeds sentence by sentence, in order, and a handle embeds
    as the model of its name does (the [_model_name] argument "must be
    consistent with [model]"). *)
Variable embed_row : string → string * option string → vec.
Variable name_of : Model → string.
Hypothesis encode_rowwise : ∀ model sentences b m,
  encode model sentences b = Ok m →
  m = map (embed_row (name_of model)) sentences.

Lemma get_dataset_embedding_rowwise model name mode ds instr b w m w' :
  name_of model = name →
  cache_rowwise embed_row (cache w) →
  get_dataset_embedding model name mode ds instr b w = (Ok m, w') →
  (∃ sentences, derive_sentences mode instr ds = Ok sentences
                ∧ m = map (embed_row name) sentences)
  ∧ cache_rowwise embed_row (cache w').
Proof.
  intros Hname Hrw Hrun.
  apply get_dataset_embedding_ok in Hrun
    as (_ & _ & _ & [[Hhit ->]|(Hmiss & S & HS & Hm & ->)]).
  - split; [by eapply Hrw | exact Hrw].
  - assert (Hrows : ∃ S, derive_sentences mode instr ds = Ok S
                         ∧ m = map (embed_row name) S).
    { exists S. split; [exact HS|]. rewrite <- Hname. by eapply encode_rowwise. }
    split; [exact Hrows|]. simpl. intros name' mode' ds' instr' m' Hk.
    destruct (decide ((name', mode', ds', instr') = (name, mode, ds, instr)))
      as [[= -> -> -> ->]|Hne].
    + rewrite lookup_insert_eq in Hk. injection Hk as <-. exact Hrows.
    + rewrite lookup_insert_ne in Hk by done. by eapply Hrw.
Qed.

Lemma files_run_rowwise a instr model files w Ds Es w' :
  name_of model = model_key a →
  cache_rowwise embed_row (cache w) →
  files_run a instr model files w Ds Es w' →
  Forall2 (λ d e, ∃ sentences,
             derive_sentences (embedding_mode a) instr d = Ok sentences
             ∧ e = map (embed_row (model_key a)) sentences) Ds Es
  ∧ cache_rowwise embed_row (cache w').
Proof.
  intros Hname Hrw Hrun. revert Hrw.
  induction Hrun as [|f rest w w1 w2 w3 d e Ds Es Hload Hemb _ IH];
    intros Hrw; [split; [constructor | exact Hrw]|].
  rewrite call_load_dataset_run in Hload. injection Hload as _ <-.
  apply get_dataset_embedding_rowwise in Hemb as [Hrows Hrw2];
    [|exact Hname|exact Hrw].
  destruct (IH Hrw2) as [Hall Hrw3]. split; [by constructor | exact Hrw3].
Qed.

(** When the pipeline returns, its matrix is the row-by-row embedding of
    the rows of its dataset: row [i] of the matrix is the embedding of the
    text of row [i] of the dataset. *)
Lemma get_dataset_embeddings_rowwise a instr model w ds E w' :
  name_of model = model_key a →
  cache_rowwise embed_row (cache w) →
  get_dataset_embeddings a instr model w = (Ok (ds, E), w') →
  (∀ i item, rows ds !! i = Some item →
     ∃ pair, map_fn (embedding_mode a) instr (example_of ds item) = Ok pair
             ∧ E !! i = Some (embed_row (model_key a) pair))
  ∧ cache_rowwise embed_row (cache w').
Proof.
  intros Hname Hrw Hrun.
  apply get_dataset_embeddings_ok_iff in Hrun
    as (Ds & Es & _ & Hrun & -> & ->).
  destruct (files_run_rowwise _ _ _ _ _ _ _ _ Hname Hrw Hrun) as [Hall Hrw'].
  split; [|exact Hrw'].
  intros i item Hi.
  assert (Hlen : Forall2 (λ d (e : list vec), length (rows d) = length e) Ds Es).
  { eapply Forall2_impl; [exact Hall|]. intros d e (S & HS & ->).
    rewrite length_map. symmetry. by eapply derive_sentences_length. }
  destruct (joined_lookup_aligned _ _ Hlen _ _ Hi)
    as (j & k & d & e & v & Hd & He & Hk & Hv & Hc & _).
  destruct (Forall2_lookup_lr _ _ _ _ _ _ Hall Hd He) as (S & HS & ->).
  destruct (derive_sentences_lookup _ _ _ _ _ _ HS Hk) as (pair & Hpair & Hfn).
  exists pair. split.
  - eapply map_fn_more_columns; [| |exact Hfn]; [|reflexivity].
    simpl. by eapply joined_columns.
  - rewrite Hc. rewrite list_lookup_fmap, Hpair in Hv. simpl in Hv.
    by injection Hv as <-.
Qed.

End RowWise.

Section Aligned.

(** The model answers with one row per sentence. *)
Hypothesis encode_rows : ∀ model sentences b m,
  encode model sentences b = Ok m → length m = length sentences.

Lemma get_dataset_embedding_aligned model name mode ds instr b w m w' :
  cache_aligned (cache w) →
  get_dataset_embedding model name mode ds instr b w = (Ok m, w') →
  length m = length (rows ds) ∧ cache_aligned (cache w').
Proof.
  intros Hal Hrun.
  apply get_dataset_embedding_ok in Hrun
    as (_ & _ & _ & [[Hhit ->]|(Hmiss & S & HS & Hm & ->)]).
  - split; [|exact Hal]. apply (Hal _ _ Hhit).
  - assert (Hlen : length m = length (rows ds)).
    { rewrite (encode_rows _ _ _ _ Hm).
      by apply derive_sentences_length in HS. }
    split; [exact Hlen|]. simpl. intros k m' Hk.
    destruct (decide (k = (name, mode, ds, instr))) as [->|Hne].
    + rewrite lookup_insert_eq in Hk. injection Hk as <-. exact Hlen.
    + rewrite lookup_insert_ne in Hk by done. by eapply Hal.
Qed.

Lemma files_run_aligned a instr model files w Ds Es w' :
  cache_aligned (cache w) →
  files_run a instr model files w Ds Es w' →
  Forall2 (λ d e, length (rows d) = length e) Ds Es
  ∧ cache_aligned (cache w').
Proof.
  intros Hal Hrun. revert Hal.
  induction Hrun as [|f rest w w1 w2 w3 d e Ds Es Hload Hemb _ IH];
    intros Hal; [split; [constructor | exact Hal]|].
  rewrite call_load_dataset_run in Hload. injection Hload as _ <-.
  apply get_dataset_embedding_aligned in Hemb as [Hlen Hal2]; [|exact Hal].
  destruct (IH Hal2) as [Hall Hal3]. split; [by constructor | exact Hal3].
Qed.

(** C1. Let the model return one row per sentence and let every matrix
    already in the cache have one row per row of its dataset.  Then after
    any number of iterations of the loop the datasets and matrices
    accumulated so far pair up with equal numbers of rows, and when the
    pipeline returns, the matrix has as many rows as the dataset, the
    dataset is the concatenation of the loaded files in file order, and
    row [i] of the matrix is the row that sits, in the same file's matrix,
    at the position row [i] of the dataset has in that file.  If moreover
    the model embeds sentence by sentence (and so did whatever filled the
    cache), row [i] of the matrix is the embedding of the text derived from
    row [i] of the dataset. *)
Theorem C1_matrix_rows_align_with_dataset_rows
    (a : Args) (instr : string) (model : Model) (w : world) :
  cache_aligned (cache w) →
  (∀ k Dk Ek wk,
     embed_loop a instr model (take k (data_files a)) [] [] w
       = (Ok (Dk, Ek), wk) →
     Forall2 (λ d e, length (rows d) = length e) Dk Ek
     ∧ length (concat Ek) = length (concat (map rows Dk))
     ∧ cache_aligned (cache wk))
  ∧ (∀ ds E w',
       get_dataset_embeddings a instr model w = (Ok (ds, E), w') →
       length E = length (rows ds)
       ∧ cache_aligned (cache w')
       ∧ ∃ Ds Es,
           Forall2 (λ f d, load_dataset f = Ok d) (data_files a) Ds
           ∧ Forall2 (λ d e, length (rows d) = length e) Ds Es
           ∧ ds = joined Ds ∧ rows ds = concat (map rows Ds)
           ∧ E = concat Es
           ∧ ∀ i item, rows ds !! i = Some item →
               ∃ j k d e v,
                 Ds !! j = Some d ∧ Es !! j = Some e
                 ∧ rows d !! k = Some item ∧ e !! k = Some v
                 ∧ E !! i = Some v
                 ∧ i = (length (concat (take j (map rows Ds))) + k)%nat)
  ∧ (∀ (embed_row : string → string * option string → vec)
       (name_of : Model → string),
       (∀ model' sentences b m,
          encode model' sentences b = Ok m →
          m = map (embed_row (name_of model')) sentences) →
       name_of model = model_key a →
       cache_rowwise embed_row (cache w) →
       ∀ ds E w',
         get_dataset_embeddings a instr model w = (Ok (ds, E), w') →
         ∀ i item, rows ds !! i = Some item →
           ∃ pair,
             map_fn (embedding_mode a) instr (example_of ds item) = Ok pair
             ∧ E !! i = Some (embed_row (model_key a) pair)).
Proof.
  intros Hal. split; [|split].
  - intros k Dk Ek wk Hloop.
    apply embed_loop_files_run in Hloop as (Ds1 & Es1 & Hrun & -> & ->).
    simpl. destruct (files_run_aligned _ _ _ _ _ _ _ _ Hal Hrun) as [Hall Hal'].
    split; [exact Hall|]. split; [|exact Hal'].
    apply Forall2_same_length_concat. by apply Forall2_rows.
  - intros ds E w' Hrun.
    apply get_dataset_embeddings_ok_iff in Hrun
      as (Ds & Es & _ & Hrun & -> & ->).
    destruct (files_run_aligned _ _ _ _ _ _ _ _ Hal Hrun) as [Hall Hal'].
    split; [by apply joined_rows_length|]. split; [exact Hal'|].
    exists Ds, Es. split; [by eapply files_run_loaded|].
    split; [exact Hall|]. split; [reflexivity|]. split; [reflexivity|].
    split; [reflexivity|].
    by apply joined_lookup_aligned.
  - intros embed_row name_of Hrowwise Hname Hrw ds E w' Hrun.
    destruct (get_dataset_embeddings_rowwise embed_row name_of Hrowwise
                _ _ _ _ _ _ _ Hname Hrw Hrun) as [Hrows _].
    exact Hrows.
Qed.

End Aligned.


End Facts.

(** ** The properties at work on the concrete collaborators *)

Lemma demo_ltb_irrefl : ∀ x : Z, Z.ltb x x = false.
Proof. intros x. apply Z.ltb_irrefl. Qed.

Lemma demo_ltb_trans : ∀ x y z : Z,
  Z.ltb x y = true → Z.ltb y z = true → Z.ltb x z = true.
Proof. intros x y z. rewrite !Z.ltb_lt. lia. Qed.

Lemma demo_ltb_cotrans : ∀ x y z : Z,
  Z.ltb x y = true → Z.ltb x z = true ∨ Z.ltb z y = true.
Proof. intros x y z. rewrite !Z.ltb_lt. lia. Qed.

Lemma demo_encode_rows : ∀ (model : string) sentences (b : Z) m,
  @encode Demo.env model sentences b = Ok m → length m = length sentences.
Proof. intros model S b m [= <-]. apply length_map. Qed.

Lemma demo_cache_aligned : @cache_aligned Demo.env (cache (@Demo.w0 Demo.env)).
Proof. intros k m Hk. simpl in Hk. rewrite lookup_empty in Hk. discriminate. Qed.

Lemma C4_witness :
  (queries Demo.neither_args = [] ∧ n_clusters Demo.neither_args = None)
  ∧ (validate Demo.neither_args = Raise AssertionError
     ∧ ∀ w, @main Demo.env Demo.neither_args w = (Raise AssertionError, w))
  ∧ (validate Demo.both_args = Ok query
     ∧ ∀ n w, @main Demo.env (with_n_clusters n Demo.both_args) w
              = @main Demo.env Demo.both_args w).
Proof.
  split; [split; reflexivity|]. split.
  - apply (proj1 (C4_neither_rejected_both_selects_query
                    (H:=Demo.env) Demo.neither_args)); reflexivity.
  - apply (proj2 (C4_neither_rejected_both_selects_query
                    (H:=Demo.env) Demo.both_args)); discriminate.
Defined.

(** With both a query and a cluster count the run is not rejected: it
    completes, using the query. *)
Lemma C4_counterexample :
  queries Demo.both_args = ["east"%string]
  ∧ n_clusters Demo.both_args = Some 2
  ∧ validate Demo.both_args = Ok query
  ∧ (@main Demo.env Demo.both_args Demo.w0).1 = Ok tt
  ∧ map event_name (trace (@main Demo.env Demo.both_args Demo.w0).2)
    = ["INSTRUCTOR"; "load_dataset"; "encode"; "encode"; "fit_transform";
       "scatter"; "scatter-x"; "legend"; "title"; "savefig"]%string.
Proof. repeat split; vm_compute; reflexivity. Qed.

Lemma C10_witness :
  queries Demo.cluster_args = []
  ∧ validate (with_query_instruction (Some "Represent the query"%string)
                Demo.cluster_args) = Ok cluster
  ∧ ∀ w, @main Demo.env
           (with_query_instruction (Some "Represent the query"%string)
              Demo.cluster_args) w
         = @main Demo.env Demo.cluster_args w.
Proof.
  split; [reflexivity|].
  destruct (C10_query_instruction_unused_without_queries (H:=Demo.env)
              Demo.cluster_args (Some "Represent the query"%string))
    as (_ & Hvalid & Hmain); [reflexivity|].
  split; [apply Hvalid; discriminate | exact Hmain].
Defined.

Lemma C8_witness :
  (@visualize Demo.env Demo.cluster_args cluster [0; 1; 0] 2
     [[1; 0]; [-1; 0]; [1; 0]] Demo.w0).1 = Ok tt
  ∧ @markers Demo.env
      (trace (@visualize Demo.env Demo.cluster_args cluster [0; 1; 0] 2
                [[1; 0]; [-1; 0]; [1; 0]] Demo.w0).2)
    = [(1, 0); (1, 0)]
  ∧ (Demo.average [3; 3], Demo.average [0; 0]) = (3, 0)
  ∧ (Demo.average [-3], Demo.average [0]) = (-3, 0).
Proof.
  assert (Hok :
    (@visualize Demo.env Demo.cluster_args cluster [0; 1; 0] 2
       [[1; 0]; [-1; 0]; [1; 0]] Demo.w0).1 = Ok tt)
    by (vm_compute; reflexivity).
  split; [exact Hok|].
  split; [|split; vm_compute; reflexivity].
  destruct (C8_one_global_centroid_marker_per_label (H:=Demo.env)
              _ _ _ _ _ _ _ (run_ok_split _ _ Hok))
    as (vis & series & Hvis & _ & _ & Hmarkers).
  rewrite Hmarkers.
  assert (Hvis' : vis = [(3, 0); (-3, 0); (3, 0)]).
  { vm_compute in Hvis. by injection Hvis as <-. }
  rewrite Hvis'. vm_compute. reflexivity.
Defined.

Lemma C3_witness :
  (@raw_labels Demo.env (Demo.query_args ["east"; "west"]%string) query
     "hkunlp/instructor-base"%string [[1; 0]; [-1; 0]; [1; 0]]
   = Ok ([0; 1; 0], 2)
   ∧ check_labels [0; 1; 0] 2 = Ok tt
   ∧ ∃ w1,
       @assign_labels Demo.env (Demo.query_args ["east"; "west"]%string) query
         "hkunlp/instructor-base"%string [[1; 0]; [-1; 0]; [1; 0]] Demo.w0
       = (Ok ([0; 1; 0], 2), w1))
  ∧ (@raw_labels Demo.env (Demo.query_args ["east"; "west"]%string) query
       "hkunlp/instructor-base"%string [[1; 0]; [1; 0]]
     = Ok ([0; 0], 2)
     ∧ check_labels [0; 0] 2 = Raise AssertionError
     ∧ (@assign_labels Demo.env (Demo.query_args ["east"; "west"]%string)
          query "hkunlp/instructor-base"%string [[1; 0]; [1; 0]] Demo.w0).1
       = Raise AssertionError).
Proof.
  split.
  - assert (Hraw :
      @raw_labels Demo.env (Demo.query_args ["east"; "west"]%string) query
        "hkunlp/instructor-base"%string [[1; 0]; [-1; 0]; [1; 0]]
      = Ok ([0; 1; 0], 2)) by (vm_compute; reflexivity).
    assert (Hcheck : check_labels [0; 1; 0] 2 = Ok tt)
      by (vm_compute; reflexivity).
    split; [exact Hraw|]. split; [exact Hcheck|]. eexists.
    apply (C3_min_max_check_or_abort (H:=Demo.env) _ _ _ _ _ _ Demo.w0 Hraw).
    exact Hcheck.
  - assert (Hraw :
      @raw_labels Demo.env (Demo.query_args ["east"; "west"]%string) query
        "hkunlp/instructor-base"%string [[1; 0]; [1; 0]]
      = Ok ([0; 0], 2)) by (vm_compute; reflexivity).
    assert (Hcheck : check_labels [0; 0] 2 = Raise AssertionError)
      by (vm_compute; reflexivity).
    split; [exact Hraw|]. split; [exact Hcheck|].
    destruct (C3_min_max_check_or_abort (H:=Demo.env) _ _ _ _ _ _ Demo.w0 Hraw)
      as (_ & _ & Habort).
    destruct Habort as (e & [->|[_ Hnil]] & Hrun & _);
      [rewrite Hcheck; discriminate | | discriminate Hnil].
    rewrite Hrun. reflexivity.
Defined.

(** Three queries, no item nearest to the second one: the labels skip the
    value 1, the check passes and the run goes on to save the figure. *)
Lemma C3_counterexample :
  @raw_labels Demo.env (Demo.query_args ["east"; "north"; "west"]%string)
    query "hkunlp/instructor-base"%string [[1; 0]; [-1; 0]; [1; 0]]
  = Ok ([0; 2; 0], 3)
  ∧ ¬ dense_cover [0; 2; 0] 3
  ∧ check_labels [0; 2; 0] 3 = Ok tt
  ∧ (@main Demo.env (Demo.query_args ["east"; "north"; "west"]%string)
       Demo.w0).1 = Ok tt
  ∧ map event_name
      (trace (@main Demo.env
                (Demo.query_args ["east"; "north"; "west"]%string)
                Demo.w0).2)
    = ["INSTRUCTOR"; "load_dataset"; "encode"; "load_dataset"; "encode";
       "encode"; "fit_transform"; "scatter"; "scatter-x"; "scatter";
       "scatter-x"; "scatter"; "scatter-x"; "legend"; "title";
       "savefig"]%string.
Proof.
  split; [vm_compute; reflexivity|]. split.
  { intros Hdense. assert (Hin : 1 ∈ [0; 2; 0]) by (apply Hdense; lia).
    repeat (apply elem_of_cons in Hin as [Hin|Hin]; [discriminate|]).
    inversion Hin. }
  repeat split; vm_compute; reflexivity.
Qed.

Lemma C5_witness :
  (@assign_labels Demo.env (Demo.query_args ["east"; "east"; "west"]%string)
     query "hkunlp/instructor-base"%string [[1; 0]; [-1; 0]; [1; 0]]
     Demo.w0).1
  = Ok ([0; 2; 0], 3)
  ∧ ∃ Q, @query_embeddings_of Demo.env
           (Demo.query_args ["east"; "east"; "west"]%string)
           "hkunlp/instructor-base"%string = Ok Q
         ∧ ∀ i e, [[1; 0]; [-1; 0]; [1; 0]] !! i = Some e →
             ∃ r q_r,
               [0; 2; 0] !! i = Some (Z.of_nat r)
               ∧ Q !! r = Some q_r
               ∧ (∀ j q, Q !! j = Some q →
                    Z.ltb (Demo.dot e q_r) (Demo.dot e q) = false)
               ∧ (∀ j q, (j < r)%nat → Q !! j = Some q →
                    Z.ltb (Demo.dot e q) (Demo.dot e q_r) = true).
Proof.
  assert (Hrun :
    (@assign_labels Demo.env (Demo.query_args ["east"; "east"; "west"]%string)
       query "hkunlp/instructor-base"%string [[1; 0]; [-1; 0]; [1; 0]]
       Demo.w0).1
    = Ok ([0; 2; 0], 3)) by (vm_compute; reflexivity).
  split; [exact Hrun|].
  destruct (proj1 (C5_label_is_first_index_of_max_similarity (H:=Demo.env)
                     demo_ltb_irrefl demo_ltb_trans demo_ltb_cotrans
                     _ _ _ _) _ _ _ (run_ok_split _ _ Hrun))
    as (Q & HQ & _ & _ & Hrows).
  exists Q. split; [exact HQ | exact Hrows].
Defined.

Lemma C9_witness :
  ∃ l, [0; 1] !! 1%nat = Some l ∧ [0; 1; 0] !! 1%nat = Some l.
Proof.
  assert (Hraw1 :
    @raw_labels Demo.env (Demo.query_args ["east"; "west"]%string) query
      "handle-1"%string [[1; 0]; [-1; 0]] = Ok ([0; 1], 2))
    by (vm_compute; reflexivity).
  assert (Hraw2 :
    @raw_labels Demo.env (Demo.query_args ["east"; "west"]%string) query
      "handle-2"%string [[0; 1]; [-1; 0]; [1; 0]] = Ok ([0; 1; 0], 2))
    by (vm_compute; reflexivity).
  destruct (C9_label_depends_only_on_own_row (H:=Demo.env)
              _ _ _ _ _ _ _ _ _ _ 1%nat [-1; 0]
              eq_refl Hraw1 Hraw2 eq_refl eq_refl)
    as (Q & l & _ & _ & H1 & H2 & _).
  exists l. split; [exact H1 | exact H2].
Defined.

Lemma C2_witness :
  (@get_dataset_embedding Demo.env "handle-1" "instructor-base" "problem"
     Demo.file_a "Represent the code" 32 Demo.w0).1
  = Ok [[1; 0]; [-1; 0]]
  ∧ ∀ w2,
      cache (@get_dataset_embedding Demo.env "handle-1" "instructor-base"
               "problem" Demo.file_a "Represent the code" 32 Demo.w0).2
        ⊆ cache w2 →
      @get_dataset_embedding Demo.env "handle-2" "instructor-base" "problem"
        Demo.file_a "Represent the code" 8 w2
      = (Ok [[1; 0]; [-1; 0]], w2).
Proof.
  assert (Hfirst :
    (@get_dataset_embedding Demo.env "handle-1" "instructor-base" "problem"
       Demo.file_a "Represent the code" 32 Demo.w0).1
    = Ok [[1; 0]; [-1; 0]]) by (vm_compute; reflexivity).
  split; [exact Hfirst|]. intros w2 Hlater.
  apply (C2_same_key_same_matrix (H:=Demo.env)
           _ _ _ _ _ _ _ _ _ _ _ _ (run_ok_split _ _ Hfirst) Hlater).
Defined.

(** A copy of a file is another dataset object with the same rows: the
    second call misses the cache and returns what its own handle computes,
    which is not the matrix of the first call. *)
Lemma C2_counterexample :
  rows Demo.file_a_copy = rows Demo.file_a
  ∧ column_names Demo.file_a_copy = column_names Demo.file_a
  ∧ let r1 := @get_dataset_embedding Demo.handle_env "handle-1"
                "instructor-base" "problem" Demo.file_a
                "Represent the code" 32 Demo.w0 in
    let r2 := @get_dataset_embedding Demo.handle_env "handle-2"
                "instructor-base" "problem" Demo.file_a_copy
                "Represent the code" 8 r1.2 in
    r1.1 = Ok [[1; 0]; [-1; 0]]
    ∧ r2.1 = Ok [[0; -1]; [0; -1]]
    ∧ map event_name (trace r2.2) = ["encode"; "encode"]%string.
Proof.
  split; [reflexivity|]. split; [reflexivity|].
  repeat split; vm_compute; reflexivity.
Qed.

Lemma C6_witness :
  ("bogus"%string ∉ valid_modes)
  ∧ @get_dataset_embedding Demo.env "handle-1" "instructor-base" "bogus"
      Demo.file_a "Represent the code" 32 Demo.w0
    = (Raise AssertionError, Demo.w0)
  ∧ @get_dataset_embedding Demo.env "handle-1" "instructor-base" "bogus"
      Demo.no_rows "Represent the code" 32 Demo.w0
    = (Raise (KeyError "pair"), Demo.w0).
Proof.
  assert (Hmode : "bogus"%string ∉ valid_modes).
  { unfold valid_modes. rewrite !not_elem_of_cons.
    repeat split; try discriminate. apply not_elem_of_nil. }
  split; [exact Hmode|].
  destruct (C6_unknown_mode_fails_before_encode (H:=Demo.env) "bogus" Hmode)
    as (_ & _ & Hrows & _ & Hnone & _).
  split.
  - apply Hrows; [discriminate | apply cache_sound_empty].
  - apply Hnone; [reflexivity | | apply cache_sound_empty].
    unfold Demo.no_rows, Demo.columns. simpl. rewrite !not_elem_of_cons.
    repeat split; try discriminate. apply not_elem_of_nil.
Defined.

(** A dataset without rows that comes with a column [pair]: under an
    unknown mode nothing raises, and the model is called. *)
Lemma C6_counterexample :
  ("bogus"%string ∉ valid_modes)
  ∧ rows Demo.no_rows_with_pair = []
  ∧ (@get_dataset_embedding Demo.env "handle-1" "instructor-base" "bogus"
       Demo.no_rows_with_pair "Represent the code" 32 Demo.w0).1
    = Ok []
  ∧ map event_name
      (trace (@get_dataset_embedding Demo.env "handle-1" "instructor-base"
                "bogus" Demo.no_rows_with_pair "Represent the code" 32
                Demo.w0).2)
    = ["encode"]%string.
Proof.
  split.
  { unfold valid_modes. rewrite !not_elem_of_cons.
    repeat split; try discriminate. apply not_elem_of_nil. }
  split; [reflexivity|].
  split; vm_compute; reflexivity.
Qed.

(** An encoder that loses rows goes unnoticed: the pipeline returns three
    dataset rows next to a one-row matrix, and [main] completes. *)
Lemma C7_counterexample :
  rbind (@get_dataset_embeddings Demo.lossy_env Demo.one_cluster_args
           "Represent the code" "hkunlp/instructor-base"%string Demo.w0).1
        (λ de, Ok (length (rows de.1), length de.2))
  = Ok (3%nat, 1%nat)
  ∧ (@main Demo.lossy_env Demo.one_cluster_args Demo.w0).1 = Ok tt
  ∧ map event_name (trace (@main Demo.lossy_env Demo.one_cluster_args Demo.w0).2)
    = ["INSTRUCTOR"; "load_dataset"; "encode"; "load_dataset"; "encode";
       "fit_predict"; "fit_transform"; "scatter"; "scatter-x"; "legend";
       "title"; "savefig"]%string.
Proof. repeat split; vm_compute; reflexivity. Qed.

Lemma C7_witness :
  let wm := (@call_load_model Demo.lossy_env "hkunlp/instructor-base"
               Demo.w0).2 in
  let r := @get_dataset_embeddings Demo.lossy_env Demo.one_cluster_args
             "Represent the code" "hkunlp/instructor-base"%string wm in
  r.1 = Ok (Demo.files_ab, [[1; 0]])
  ∧ @main Demo.lossy_env Demo.one_cluster_args Demo.w0
    = @bind Demo.lossy_env _ _
        (@assign_labels Demo.lossy_env Demo.one_cluster_args cluster
           "hkunlp/instructor-base"%string [[1; 0]])
        (λ ln, @visualize Demo.lossy_env Demo.one_cluster_args cluster
                 ln.1 ln.2 [[1; 0]])
        r.2.
Proof.
  intros wm r.
  assert (Hval : validate Demo.one_cluster_args = Ok cluster)
    by (vm_compute; reflexivity).
  assert (Hmodel :
    (@call_load_model Demo.lossy_env "hkunlp/instructor-base" Demo.w0).1
    = Ok "hkunlp/instructor-base"%string) by (vm_compute; reflexivity).
  assert (Hfst : r.1 = Ok (Demo.files_ab, [[1; 0]]))
    by (vm_compute; reflexivity).
  split; [exact Hfst|].
  apply (proj2 (C7_pipeline_returns_concatenations_unchecked
                  (H:=Demo.lossy_env) Demo.one_cluster_args
                  "Represent the code" "hkunlp/instructor-base"%string
                  wm r.2 Demo.files_ab [[1; 0]])
               cluster Demo.w0 Hval (run_ok_split _ _ Hmodel)
               (run_ok_split _ _ Hfst)).
Defined.

Lemma C1_witness :
  (@get_dataset_embeddings Demo.env Demo.cluster_args "Represent the code"
     "hkunlp/instructor-base"%string Demo.w0).1
  = Ok (Demo.files_ab, [[1; 0]; [-1; 0]; [1; 0]])
  ∧ length [[1; 0]; [-1; 0]; [1; 0]] = length (rows Demo.files_ab)
  ∧ @cache_aligned Demo.env
      (cache (@get_dataset_embeddings Demo.env Demo.cluster_args
                "Represent the code" "hkunlp/instructor-base"%string
                Demo.w0).2)
  ∧ ∀ i item, rows Demo.files_ab !! i = Some item →
      ∃ pair,
        @map_fn Demo.env "problem" "Represent the code"
          (example_of Demo.files_ab item) = Ok pair
        ∧ [[1; 0]; [-1; 0]; [1; 0]] !! i = Some (Demo.embed pair).
Proof.
  assert (Hfst :
    (@get_dataset_embeddings Demo.env Demo.cluster_args "Represent the code"
       "hkunlp/instructor-base"%string Demo.w0).1
    = Ok (Demo.files_ab, [[1; 0]; [-1; 0]; [1; 0]]))
    by (vm_compute; reflexivity).
  split; [exact Hfst|].
  destruct (C1_matrix_rows_align_with_dataset_rows (H:=Demo.env)
              demo_encode_rows Demo.cluster_args "Represent the code"
              "hkunlp/instructor-base"%string Demo.w0 demo_cache_aligned)
    as (_ & Hfinal & Hrows).
  destruct (Hfinal _ _ _ (run_ok_split _ _ Hfst)) as (Hlen & Hal & _).
  split; [exact Hlen|]. split; [exact Hal|].
  apply (Hrows (λ _, Demo.embed) (λ _, "instructor-base"%string)) with
    (w' := (@get_dataset_embeddings Demo.env Demo.cluster_args
              "Represent the code" "hkunlp/instructor-base"%string
              Demo.w0).2).
  - intros model' S b m [= <-]. reflexivity.
  - reflexivity.
  - intros name mode ds instr m Hk. simpl in Hk.
    rewrite lookup_empty in Hk. discriminate.
  - exact (run_ok_split _ _ Hfst).
Defined.

(** * Further properties of the script *)

Section MoreFacts.

Context `{Env}.

Lemma run_raise_split {A} (r : result A * world) (e : exn) :
  r.1 = Raise e → r = (Raise e, r.2).
Proof. destruct r as [r1 w]. simpl. by intros ->. Qed.

(** ** Configuration *)

(** X1. [main] gets past its opening assertions in exactly two cases:
    queries together with a query instruction (nearest-query), or no query
    and a cluster count (clustering).  In every other case, queries without
    a query instruction included, it stops with [AssertionError] before
    anything else has happened. *)
Theorem X1_validate_accepts_exactly_two_shapes (a : Args) :
  (∀ method, validate a = Ok method ↔
     (queries a ≠ [] ∧ query_instruction a ≠ None ∧ method = query)
     ∨ (queries a = [] ∧ n_clusters a ≠ None ∧ method = cluster))
  ∧ (∀ e, validate a = Raise e →
       e = AssertionError ∧ ∀ w, main a w = (Raise AssertionError, w))
  ∧ (queries a ≠ [] → query_instruction a = None →
     ∀ w, main a w = (Raise AssertionError, w)).
Proof.
  assert (Hraise : ∀ e, validate a = Raise e →
            e = AssertionError ∧ ∀ w, main a w = (Raise AssertionError, w)).
  { intros e He.
    assert (e = AssertionError) as ->.
    { destruct (queries a) as [|q qs] eqn:Hq.
      - rewrite validate_no_queries in He by exact Hq.
        destruct (n_clusters a); congruence.
      - rewrite validate_queries in He by (rewrite Hq; discriminate).
        destruct (query_instruction a); congruence. }
    split; [reflexivity|]. intros w. rewrite main_unfold, He. reflexivity. }
  split; [|split; [exact Hraise|]].
  - intros method. destruct (queries a) as [|q qs] eqn:Hq.
    + rewrite validate_no_queries by exact Hq.
      destruct (n_clusters a) as [n|]; split.
      * intros [= <-]. right. done.
      * intros [(Hne & _)|(_ & _ & ->)]; [congruence|reflexivity].
      * discriminate.
      * intros [(Hne & _)|(_ & Hn & _)]; congruence.
    + rewrite validate_queries by (rewrite Hq; discriminate).
      destruct (query_instruction a) as [qi|]; split.
      * intros [= <-]. left. done.
      * intros [(_ & _ & ->)|(Hnil & _)]; [reflexivity|discriminate].
      * discriminate.
      * intros [(_ & Hqi & _)|(Hnil & _)]; [congruence|discriminate].
  - intros Hq Hqi. apply (Hraise AssertionError).
    rewrite validate_queries, Hqi by exact Hq. reflexivity.
Qed.

(** ** Text derivation *)

Lemma getitem_ok (e : example) (k : string) (v : option string) :
  getitem e k = Ok v ↔ k ∈ ex_keys e ∧ v = ex_fields e !! k.
Proof.
  unfold getitem. case_bool_decide as Hk.
  - split; [intros [= <-]; done | intros [_ ->]; done].
  - split; [discriminate | intros [? _]; contradiction].
Qed.

Lemma map_fn_column (mode instr : string) (ex : example) :
  mode ∈ ["seed"; "problem"; "solution"]%string →
  map_fn mode instr ex
  = if bool_decide (mode ∈ ex_keys ex) then Ok (instr, ex_fields ex !! mode)
    else Raise (KeyError mode).
Proof.
  intros Hmode. unfold map_fn, getitem.
  repeat (apply elem_of_cons in Hmode as [->|Hmode];
          [simpl; case_bool_decide; reflexivity|]).
  inversion Hmode.
Qed.

Lemma map_fn_ok_inv (mode instr : string) (ex : example) pair :
  map_fn mode instr ex = Ok pair →
  ∃ text, pair = (instr, text)
    ∧ (mode ≠ "problem-solution"%string →
       mode ∈ ex_keys ex ∧ text = ex_fields ex !! mode)
    ∧ (mode = "problem-solution"%string →
       "problem"%string ∈ ex_keys ex ∧ "solution"%string ∈ ex_keys ex
       ∧ text = Some (format_prompt (ex_fields ex !! "problem"%string)
                                    (ex_fields ex !! "solution"%string))).
Proof.
  unfold map_fn. intros Hok. apply rbind_ok in Hok as (text & Htext & [= <-]).
  exists text. split; [reflexivity|].
  repeat case_bool_decide; subst.
  - apply getitem_ok in Htext as [Hin ->]. split; [done | discriminate].
  - apply getitem_ok in Htext as [Hin ->]. split; [done | discriminate].
  - apply getitem_ok in Htext as [Hin ->]. split; [done | discriminate].
  - apply rbind_ok in Htext as (p & Hp & Htext).
    apply rbind_ok in Htext as (sol & Hsol & [= <-]).
    apply getitem_ok in Hp as [Hinp ->].
    apply getitem_ok in Hsol as [Hins ->].
    split; [congruence | done].
  - discriminate.
Qed.

(** X2. When the texts of a dataset are derived, there is one sentence per
    row, in row order; each sentence is the run's instruction paired with
    the row's text, which is the value of the column named by the mode
    ([None] where the record has no such field), or, in [problem-solution]
    mode, the prompt template filled with the row's problem and
    solution. *)
Theorem X2_sentences_follow_rows
    (mode instr : string) (ds : Dataset)
    (sentences : list (string * option string)) :
  derive_sentences mode instr ds = Ok sentences →
  length sentences = length (rows ds)
  ∧ (rows ds ≠ [] → mode ∈ valid_modes)
  ∧ ∀ i row, rows ds !! i = Some row →
      ∃ text, sentences !! i = Some (instr, text)
        ∧ (mode ≠ "problem-solution"%string →
           mode ∈ column_names ds ∧ text = row !! mode)
        ∧ (mode = "problem-solution"%string →
           "problem"%string ∈ column_names ds
           ∧ "solution"%string ∈ column_names ds
           ∧ text = Some (format_prompt (row !! "problem"%string)
                                        (row !! "solution"%string))).
Proof.
  intros HS. split; [by eapply derive_sentences_length|]. split.
  - intros Hne. destruct (rows ds) as [|row rs] eqn:Hrows; [congruence|].
    destruct (derive_sentences_lookup _ _ _ _ 0%nat row HS)
      as (y & _ & Hy); [by rewrite Hrows|].
    by eapply map_fn_ok_valid_mode.
  - intros i row Hi.
    destruct (derive_sentences_lookup _ _ _ _ _ _ HS Hi) as (y & Hy & Hfn).
    apply map_fn_ok_inv in Hfn as (text & -> & Hcol & Hps).
    exists text. done.
Qed.

Lemma map_result_total {A B} (f : A → result B) (g : A → B) (l : list A) :
  (∀ x, f x = Ok (g x)) → map_result f l = Ok (map g l).
Proof.
  intros Hf. induction l as [|x l IH]; simpl; [reflexivity|].
  rewrite Hf, IH. reflexivity.
Qed.

Lemma get_dataset_embedding_derive_raise model name mode ds instr b w e :
  derive_sentences mode instr ds = Raise e →
  cache_sound (cache w) →
  get_dataset_embedding model name mode ds instr b w = (Raise e, w).
Proof.
  intros He Hsound.
  destruct (cache w !! (name, mode, ds, instr)) as [m0|] eqn:Hk.
  - destruct (Hsound _ _ Hk) as (S & HS).
    unfold key_mode, key_instruction, key_dataset in HS. simpl in HS.
    rewrite He in HS. discriminate.
  - rewrite (get_dataset_embedding_miss _ _ _ _ _ _ _ Hk), He.
    reflexivity.
Qed.

(** X3. In the modes [seed], [problem] and [solution], on a dataset with
    rows: when the dataset has no column of that name, the derivation
    raises [KeyError] for that column on the first row, and the function
    stops before the model is called and before anything is stored (the
    cache holding only what earlier calls stored).  When the dataset has
    the column, the derivation never raises: a record without the field
    gives the text [None], and the model is called on all the rows. *)
Theorem X3_missing_column_key_error
    (mode instr : string) (ds : Dataset) :
  mode ∈ ["seed"; "problem"; "solution"]%string →
  rows ds ≠ [] →
  (mode ∉ column_names ds →
     derive_sentences mode instr ds = Raise (KeyError mode)
     ∧ (∀ model b w,
          get_dataset_embedding_body model mode ds instr b w
          = (Raise (KeyError mode), w))
     ∧ (∀ model name b w,
          cache_sound (cache w) →
          get_dataset_embedding model name mode ds instr b w
          = (Raise (KeyError mode), w)))
  ∧ (mode ∈ column_names ds →
     let sentences := map (λ row, (instr, row !! mode)) (rows ds) in
     derive_sentences mode instr ds = Ok sentences
     ∧ ∀ model b w,
         get_dataset_embedding_body model mode ds instr b w
         = (encode model sentences b,
            mkWorld (cache w) (trace w ++ [EvEncode sentences b]))).
Proof.
  intros Hmode Hne. split.
  - intros Hno.
    assert (Hderive : derive_sentences mode instr ds = Raise (KeyError mode)).
    { rewrite derive_sentences_rows by exact Hne.
      destruct (rows ds) as [|row rs]; [congruence|].
      apply map_result_first_raise.
      rewrite map_fn_column by exact Hmode. simpl.
      by rewrite bool_decide_eq_false_2. }
    split; [exact Hderive|]. split.
    + intros model b w. rewrite get_dataset_embedding_body_run, Hderive.
      reflexivity.
    + intros model name b w Hsound.
      by apply get_dataset_embedding_derive_raise.
  - intros Hin sentences.
    assert (Hderive : derive_sentences mode instr ds = Ok sentences).
    { rewrite derive_sentences_rows by exact Hne.
      apply map_result_total. intros row.
      rewrite map_fn_column by exact Hmode. simpl.
      by rewrite bool_decide_eq_true_2. }
    split; [exact Hderive|].
    intros model b w. rewrite get_dataset_embedding_body_run, Hderive.
    reflexivity.
Qed.

(** ** The cache *)

(** X4. A call of the cached function that raises was a cache miss and
    leaves the cache exactly as it was: either the text derivation raised
    and nothing happened at all, or the model was called once and raised. *)
Theorem X4_failed_call_leaves_cache_untouched
    (model : Model) (name mode : string) (ds : Dataset) (instr : string)
    (b : Z) (w w' : world) (e : exn) :
  get_dataset_embedding model name mode ds instr b w = (Raise e, w') →
  cache w' = cache w
  ∧ cache w !! (name, mode, ds, instr) = None
  ∧ ((derive_sentences mode instr ds = Raise e ∧ w' = w)
     ∨ ∃ S, derive_sentences mode instr ds = Ok S
            ∧ encode model S b = Raise e
            ∧ trace w' = trace w ++ [EvEncode S b]).
Proof.
  destruct (cache w !! (name, mode, ds, instr)) as [m0|] eqn:Hk.
  - rewrite (get_dataset_embedding_hit _ _ _ _ _ _ _ _ Hk). discriminate.
  - rewrite (get_dataset_embedding_miss _ _ _ _ _ _ _ Hk).
    destruct (derive_sentences mode instr ds) as [S|e'] eqn:HS.
    + destruct (encode model S b) as [m|e'] eqn:Hm; [discriminate|].
      intros [= -> <-]. simpl. split; [reflexivity|]. split; [reflexivity|].
      right. exists S. done.
    + intros [= -> <-]. split; [reflexivity|]. split; [reflexivity|].
      left. done.
Qed.

(** ** The pipeline *)







(** X6. With no data file at all the pipeline raises [ValueError] (there
    is nothing to concatenate) without loading or embedding anything, and
    [main] stops there, right after the model has been loaded. *)
Theorem X6_no_data_file_value_error
    (a : Args) (instr : string) (model : Model) (w : world) :
  data_files a = [] →
  get_dataset_embeddings a instr model w = (Raise ValueError, w)
  ∧ ∀ method w0,
      validate a = Ok method →
      call_load_model ("hkunlp/" +:+ model_key a) w0 = (Ok model, w) →
      main a w0 = (Raise ValueError, w).
Proof.
  intros Hfiles.
  assert (Hrun : ∀ i, get_dataset_embeddings a i model w
                      = (Raise ValueError, w)).
  { intros i. unfold get_dataset_embeddings. rewrite Hfiles. reflexivity. }
  split; [apply Hrun|]. intros method w0 Hval Hmodel.
  rewrite main_unfold, Hval, (bind_step _ _ _ _ _ Hmodel).
  apply bind_raise. apply Hrun.
Qed.

(** X7. When a data file fails to load, the pipeline raises the loader's
    own exception: the files before it have been loaded and embedded (and
    their matrices stay in the cache), the files after it are never
    touched. *)
Theorem X7_load_failure_stops_the_loop
    (a : Args) (instr : string) (model : Model)
    (before after : list string) (bad : string) (e : exn)
    (w w1 : world) (Ds : list Dataset) (Es : list (list vec)) :
  data_files a = before ++ bad :: after →
  files_run a instr model before w Ds Es w1 →
  load_dataset bad = Raise e →
  get_dataset_embeddings a instr model w
  = (Raise e, mkWorld (cache w1) (trace w1 ++ [EvLoadDataset bad])).
Proof.
  intros Hfiles Hrun Hbad. unfold get_dataset_embeddings. rewrite Hfiles.
  apply bind_raise. rewrite embed_loop_app.
  assert (Hloop : embed_loop a instr model before [] [] w = (Ok (Ds, Es), w1)).
  { apply embed_loop_files_run. exists Ds, Es. done. }
  rewrite (bind_step _ _ _ _ _ Hloop). simpl.
  apply bind_raise. rewrite call_load_dataset_run, Hbad. reflexivity.
Qed.

(** ** Nearest-query labels *)

Lemma argmax_from_lt (l : list score) :
  ∀ i best best_i, (best_i < i)%nat →
    (argmax_from l i best best_i < i + length l)%nat.
Proof.
  induction l as [|s l IH]; intros i best best_i Hlt; simpl; [lia|].
  destruct (score_ltb best s).
  - specialize (IH (S i) s i). lia.
  - specialize (IH (S i) best best_i). lia.
Qed.

Lemma argmax_lt (l : list score) (r : nat) :
  argmax l = Ok r → (r < length l)%nat.
Proof.
  destruct l as [|s l]; simpl; [discriminate|]. intros [= <-].
  pose proof (argmax_from_lt l 1 s 0). lia.
Qed.

Lemma get_label_range (nq : nat) (Q : list vec) (e : vec) (l : Z) :
  get_label nq Q e = Ok l → 0 ≤ l < Z.of_nat nq.
Proof.
  intros Hl. apply get_label_ok in Hl as (Hlen & r & Hr & ->).
  apply argmax_lt in Hr. rewrite length_map in Hr. lia.
Qed.

Lemma map_result_ok_elem {A B} (f : A → result B) l ys y :
  map_result f l = Ok ys → y ∈ ys → ∃ x, x ∈ l ∧ f x = Ok y.
Proof.
  revert ys. induction l as [|a l IH]; intros ys; simpl.
  - intros [= <-] Hy. inversion Hy.
  - destruct (f a) as [b|] eqn:Hfa; simpl; [|discriminate].
    destruct (map_result f l) as [ys'|] eqn:Hrec; simpl; [|discriminate].
    intros [= <-] Hy. apply elem_of_cons in Hy as [->|Hy].
    + exists a. split; [left | exact Hfa].
    + destruct (IH ys' eq_refl Hy) as (x & Hx & Hfx).
      exists x. split; [by right | exact Hfx].
Qed.

Lemma raw_labels_query_range a model E labels n :
  raw_labels a query model E = Ok (labels, n) →
  ∀ l, l ∈ labels → 0 ≤ l < n.
Proof.
  intros Hraw l Hl.
  apply raw_labels_query_ok in Hraw as (Q & _ & -> & Hmap).
  destruct (map_result_ok_elem _ _ _ _ Hmap Hl) as (e & _ & He).
  by eapply get_label_range.
Qed.

(** X8. In a nearest-query run every label lies in [0 .. n-1], [n] being
    the number of queries; so the check that follows can only fail because
    no item is nearest to the first query, or none to the last one: the
    nearest-query branch returns the labels exactly when both occur. *)
Theorem X8_query_labels_in_range
    (a : Args) (model : Model) (E : list vec) (labels : list Z) (n : Z) :
  raw_labels a query model E = Ok (labels, n) →
  (∀ l, l ∈ labels → 0 ≤ l < n)
  ∧ (check_labels labels n = Ok tt ↔ 0 ∈ labels ∧ (n - 1) ∈ labels)
  ∧ (∀ w, assign_labels a query model E w
          = (rbind (check_labels labels n) (λ _, Ok (labels, n)),
             mkWorld (cache w) (trace w ++ strategy_events a query)))
  ∧ (∀ w ln w', assign_labels a query model E w = (Ok ln, w') →
       ln = (labels, n) ∧ 0 ∈ labels ∧ (n - 1) ∈ labels).
Proof.
  intros Hraw.
  pose proof (raw_labels_query_range _ _ _ _ _ Hraw) as Hrange.
  assert (Hcheck : check_labels labels n = Ok tt
                   ↔ 0 ∈ labels ∧ (n - 1) ∈ labels).
  { rewrite check_labels_ok_iff. split.
    - intros (Hn & H0 & _). done.
    - intros (H0 & Hn). split; [exact Hn|]. split; [exact H0|].
      intros l Hl. specialize (Hrange l Hl). lia. }
  split; [exact Hrange|]. split; [exact Hcheck|]. split.
  - intros w. by apply assign_labels_raw.
  - intros w ln w' Hrun.
    rewrite (assign_labels_raw _ _ _ _ _ _ w Hraw) in Hrun.
    destruct (check_labels labels n) as [[]|] eqn:Hc; [|discriminate].
    injection Hrun as <- _. split; [reflexivity|]. by apply Hcheck.
Qed.

(** X9. When the model returns a number of query vectors that differs from
    the number of queries and there is at least one item, the shape
    assertion of [get_label] stops the run with [AssertionError] on the
    first item, right after the queries have been embedded. *)
Theorem X9_query_vector_count_mismatch_aborts
    (a : Args) (model : Model) (E : list vec) (qi : string) (Q : list vec)
    (w : world) :
  query_instruction a = Some qi →
  encode model (map (λ q, (qi, Some q)) (queries a)) (batch_size a) = Ok Q →
  length Q ≠ length (queries a) →
  E ≠ [] →
  assign_labels a query model E w
  = (Raise AssertionError,
     mkWorld (cache w) (trace w ++ strategy_events a query)).
Proof.
  intros Hqi HQ Hlen HE. unfold assign_labels, strategy_events.
  rewrite Hqi. unfold call_encode, bind, emit, lift. simpl. rewrite HQ.
  destruct E as [|e E]; [congruence|]. simpl.
  unfold get_label at 1. rewrite !length_map.
  rewrite bool_decide_eq_false_2 by exact Hlen. reflexivity.
Qed.

(** X10. A nearest-query run over an empty embedding matrix stops with
    [ValueError]: no label is computed, so [get_label] asserts nothing, and
    it is the maximum of the empty label array that raises. *)
Theorem X10_no_item_value_error
    (a : Args) (model : Model) (qi : string) (Q : list vec) (w : world) :
  query_instruction a = Some qi →
  encode model (map (λ q, (qi, Some q)) (queries a)) (batch_size a) = Ok Q →
  assign_labels a query model [] w
  = (Raise ValueError,
     mkWorld (cache w) (trace w ++ strategy_events a query)).
Proof.
  intros Hqi HQ. unfold assign_labels, strategy_events.
  rewrite Hqi. unfold call_encode, bind, emit, lift. simpl. rewrite HQ.
  reflexivity.
Qed.

Lemma all_zero_replicate (labels : list Z) :
  (∀ l, l ∈ labels → l = 0) → labels = replicate (length labels) 0.
Proof.
  induction labels as [|l labels IH]; intros Hall; simpl; [reflexivity|].
  rewrite (Hall l) by left. f_equal. apply IH.
  intros l' Hl'. apply Hall. by right.
Qed.

(** X11. With a single query every item gets label 0, so the check after
    label assignment passes as soon as there is an item, and the
    nearest-query branch returns these labels. *)
Theorem X11_single_query_labels_all_zero
    (a : Args) (model : Model) (E : list vec) (q : string)
    (labels : list Z) (n : Z) :
  queries a = [q] →
  raw_labels a query model E = Ok (labels, n) →
  n = 1
  ∧ labels = replicate (length E) 0
  ∧ (E ≠ [] → check_labels labels n = Ok tt)
  ∧ (E ≠ [] →
     ∀ w, assign_labels a query model E w
          = (Ok (replicate (length E) 0, 1),
             mkWorld (cache w) (trace w ++ strategy_events a query))).
Proof.
  intros Hq Hraw.
  pose proof (λ w, assign_labels_raw a query model E labels n w Hraw) as Hrun.
  pose proof (raw_labels_query_range _ _ _ _ _ Hraw) as Hrange.
  apply raw_labels_query_ok in Hraw as (Q & _ & -> & Hmap).
  rewrite Hq in Hrange, Hmap |- *. simpl in Hrange, Hmap |- *.
  apply map_result_ok_length in Hmap.
  assert (Hzero : labels = replicate (length E) 0).
  { rewrite <- Hmap. apply all_zero_replicate.
    intros l Hl. specialize (Hrange l Hl). lia. }
  assert (Hcheck : E ≠ [] → check_labels labels 1 = Ok tt).
  { intros HE. rewrite Hzero. destruct E as [|e E]; [congruence|].
    apply check_labels_ok_iff. simpl.
    split; [left|]. split; [left|].
    intros l Hl. apply elem_of_cons in Hl as [->|Hl]; [lia|].
    apply elem_of_replicate in Hl as [-> _]. lia. }
  split; [reflexivity|]. split; [exact Hzero|]. split; [exact Hcheck|].
  intros HE w. rewrite Hrun, Hq.
  change (Z.of_nat (length [q])) with 1.
  rewrite (Hcheck HE). simpl. rewrite Hq. simpl. by rewrite <- Hzero.
Qed.

(** ** Series *)

Lemma select_by_label_cons {A} (x : A) xs (a : Z) labels l :
  select_by_label (x :: xs) (a :: labels) l
  = if decide (a = l) then x :: select_by_label xs labels l
    else select_by_label xs labels l.
Proof.
  unfold select_by_label. simpl. rewrite filter_cons. simpl.
  destruct (decide (a = l)); reflexivity.
Qed.

Lemma take_indices_where_from {A} (labels : list Z) (l : Z) :
  ∀ (pre rest : list A),
    (length labels ≤ length rest)%nat →
    take_indices (pre ++ rest) (where_from labels l (length pre))
    = Ok (select_by_label rest labels l).
Proof.
  induction labels as [|a labels IH]; intros pre rest Hlen.
  - destruct rest; reflexivity.
  - destruct rest as [|x rest]; [simpl in Hlen; lia|].
    simpl in Hlen. rewrite select_by_label_cons. simpl.
    assert (Hrec :
      take_indices (pre ++ x :: rest) (where_from labels l (S (length pre)))
      = Ok (select_by_label rest labels l)).
    { replace (S (length pre)) with (length (pre ++ [x]))
        by (rewrite length_app; simpl; lia).
      rewrite (cons_middle x pre rest), app_assoc. apply IH. lia. }
    destruct (Z.eqb_spec a l) as [->|Hne].
    + rewrite decide_True by reflexivity.
      unfold take_indices in *. simpl.
      rewrite list_lookup_middle by reflexivity. simpl.
      rewrite Hrec. reflexivity.
    + rewrite decide_False by exact Hne. exact Hrec.
Qed.

Lemma take_indices_where_eq {A} (xs : list A) (labels : list Z) (l : Z) :
  (length labels ≤ length xs)%nat →
  take_indices xs (where_eq labels l) = Ok (select_by_label xs labels l).
Proof. intros Hlen. apply (take_indices_where_from labels l [] xs Hlen). Qed.

Lemma elem_of_where_from (labels : list Z) (l : Z) :
  ∀ i k, labels !! k = Some l → (i + k)%nat ∈ where_from labels l i.
Proof.
  induction labels as [|a labels IH]; intros i k Hk.
  - destruct k; discriminate.
  - destruct k as [|k]; simpl in *.
    + injection Hk as ->. rewrite Z.eqb_refl, Nat.add_0_r. left.
    + replace (i + S k)%nat with (S i + k)%nat by lia.
      destruct (Z.eqb a l); [right|]; by apply IH.
Qed.

Lemma map_result_raise_elem {A B} (f : A → result B) (l : list A) x e :
  x ∈ l → f x = Raise e → (∀ y e', f y = Raise e' → e' = e) →
  map_result f l = Raise e.
Proof.
  intros Hx Hfx Hsame. induction l as [|a l IH]; [inversion Hx|]. simpl.
  destruct (f a) as [b|e'] eqn:Hfa; simpl.
  - apply elem_of_cons in Hx as [->|Hx]; [congruence|].
    rewrite (IH Hx). reflexivity.
  - by rewrite (Hsame _ _ Hfa).
Qed.

(** X12. The points of the series of a label are picked by position: when
    there is a projected point for every label entry, they are exactly the
    points at the positions that carry the label, in order (numpy's
    [xs[labels == label]]); when an item that carries the label has no
    projected point, the selection raises [IndexError]. *)
Theorem X12_series_points_are_those_with_the_label
    {A} (xs : list A) (labels : list Z) (l : Z) :
  ((length labels ≤ length xs)%nat →
   take_indices xs (where_eq labels l) = Ok (select_by_label xs labels l))
  ∧ (∀ k, labels !! k = Some l → (length xs ≤ k)%nat →
          take_indices xs (where_eq labels l) = Raise IndexError).
Proof.
  split.
  - apply take_indices_where_eq.
  - intros k Hk Hout. unfold take_indices, where_eq.
    apply (map_result_raise_elem _ _ k).
    + apply (elem_of_where_from labels l 0 k Hk).
    + rewrite lookup_ge_None_2 by exact Hout. reflexivity.
    + intros y e'. destruct (xs !! y); [discriminate|]. by intros [= <-].
Qed.





(** ** The visualization as a whole *)

Lemma legend_label_in_range (a : Args) (method : Method) (n l : Z) :
  l ∈ seqZ 0 n →
  (method = query → n ≤ Z.of_nat (length (queries a))) →
  ∃ lg, legend_label a method l = Ok lg.
Proof.
  intros Hl Hn. apply elem_of_seqZ in Hl. destruct method; simpl; [eauto|].
  specialize (Hn eq_refl).
  destruct (lookup_lt_is_Some_2 (queries a) (Z.to_nat l)) as [q Hq]; [lia|].
  rewrite Hq. eauto.
Qed.

Lemma plot_loop_run (a : Args) (method : Method) (labels : list Z)
    (xs ys : list coord) (range : list Z) :
  (length labels ≤ length xs)%nat → (length labels ≤ length ys)%nat →
  (∀ l, l ∈ range → ∃ lg, legend_label a method l = Ok lg) →
  ∀ w, ∃ legends,
    Forall2 (λ l lg, legend_label a method l = Ok lg) range legends
    ∧ plot_loop a method labels xs ys range w
      = (Ok tt,
         mkWorld (cache w)
           (trace w ++
            flat_map (λ p, label_events
                             (select_by_label xs labels p.1,
                              select_by_label ys labels p.1, p.2)
                             (mean xs, mean ys))
                     (zip range legends))).
Proof.
  intros Hxs Hys. induction range as [|l range IH]; intros Hlegend w.
  - exists []. split; [constructor|]. simpl. rewrite app_nil_r. by destruct w.
  - destruct (Hlegend l) as [lg Hlg]; [left|].
    destruct (IH (λ l' Hl', Hlegend l' (list_elem_of_further _ _ _ Hl'))
                (mkWorld (cache w)
                   (trace w ++ label_events
                      (select_by_label xs labels l,
                       select_by_label ys labels l, lg) (mean xs, mean ys))))
      as (legends & Hall & Hrest).
    exists (lg :: legends). split; [by constructor|].
    simpl plot_loop. unfold bind at 1, plot_label.
    rewrite (take_indices_where_eq xs labels l Hxs).
    rewrite (take_indices_where_eq ys labels l Hys).
    unfold bind, lift, emit. simpl. rewrite Hlg. simpl.
    unfold bind, lift, emit in Hrest. simpl in Hrest.
    rewrite <- !app_assoc in *. simpl in *. exact Hrest.
Qed.

(** X14. When the projection returns a point for every label entry (and,
    in nearest-query mode, there are not more groups than queries), the
    visualization runs to the end: after the projection it draws, for each
    label of [0 .. n-1] in turn, the points that carry the label under the
    label's legend, then the marker; then come the legend box, the title
    and the saved figure.  The cache is not touched. *)
Theorem X14_visualize_completes
    (a : Args) (method : Method) (labels : list Z) (n : Z) (E : list vec)
    (vis : list (coord * coord)) (w : world) :
  tsne_fit_transform E = Ok vis →
  (length labels ≤ length vis)%nat →
  (method = query → n ≤ Z.of_nat (length (queries a))) →
  ∃ legends,
    Forall2 (λ l lg, legend_label a method l = Ok lg) (seqZ 0 n) legends
    ∧ visualize a method labels n E w
      = (Ok tt,
         mkWorld (cache w)
           (trace w ++ EvTSNE ::
            flat_map (λ p, label_events
                             (select_by_label (map fst vis) labels p.1,
                              select_by_label (map snd vis) labels p.1, p.2)
                             (mean (map fst vis), mean (map snd vis)))
                     (zip (seqZ 0 n) legends)
            ++ [EvLegend; EvTitle "Visualization of Clusters";
                EvSavefig "clusters.png"])).
Proof.
  intros Hvis Hlen Hn.
  destruct (plot_loop_run a method labels (map fst vis) (map snd vis)
              (seqZ 0 n)
              ltac:(by rewrite length_map) ltac:(by rewrite length_map)
              (λ l Hl, legend_label_in_range a method n l Hl Hn)
              (mkWorld (cache w) (trace w ++ [EvTSNE])))
    as (legends & Hall & Hloop).
  exists legends. split; [exact Hall|].
  unfold visualize. unfold bind at 1, emit at 1.
  unfold bind at 1, lift. rewrite Hvis.
  unfold bind at 1. rewrite Hloop.
  unfold bind, emit. simpl. rewrite <- !app_assoc. reflexivity.
Qed.

Lemma scatter_legends_app (t1 t2 : list event) :
  scatter_legends (t1 ++ t2) = scatter_legends t1 ++ scatter_legends t2.
Proof. unfold scatter_legends. apply omap_app. Qed.

Lemma scatter_legends_series
    (series : list (list coord * list coord * string)) c :
  scatter_legends (flat_map (λ s, label_events s c) series) = series.*2.
Proof.
  induction series as [|s series IH]; simpl; [reflexivity|].
  f_equal. exact IH.
Qed.

Lemma query_legends (qs : list string) (n : Z) (legends : list string) :
  Forall2 (λ l lg, qs !! Z.to_nat l = Some lg) (seqZ 0 n) legends →
  legends = take (Z.to_nat n) qs.
Proof.
  intros Hall. pose proof (Forall2_length _ _ _ Hall) as Hlen.
  rewrite length_seqZ in Hlen.
  apply list_eq. intros i.
  destruct (decide (i < Z.to_nat n)%nat) as [Hlt|Hge].
  - rewrite lookup_take_lt by exact Hlt.
    destruct (lookup_lt_is_Some_2 legends i) as [lg Hlg]; [lia|].
    destruct (Forall2_lookup_r _ _ _ _ _ Hall Hlg) as (l & Hl & Hq).
    apply lookup_seqZ in Hl as [-> _].
    rewrite Hlg. rewrite <- Hq. f_equal. lia.
  - rewrite lookup_take_ge by lia. apply lookup_ge_None_2. lia.
Qed.

Lemma cluster_legends (n : Z) (range : list Z) (legends : list string) :
  Forall2 (λ l lg, Ok ("Cluster " +:+ pretty (l + 1)) = Ok lg) range legends →
  legends = (λ l, "Cluster " +:+ pretty (l + 1)) <$> range.
Proof.
  induction 1 as [|l lg range legends [= <-] _ IH]; simpl; [reflexivity|].
  by rewrite IH.
Qed.

(** X15. The legends of the series of a completed visualization are, in
    plotting order, ["Cluster 1"], ["Cluster 2"], ... up to the number of
    groups in clustering mode (counting from one), and the first [n] query
    strings themselves in nearest-query mode. *)
Theorem X15_legends_name_the_groups
    (a : Args) (method : Method) (labels : list Z) (n : Z) (E : list vec)
    (w w' : world) :
  visualize a method labels n E w = (Ok tt, w') →
  scatter_legends (trace w')
  = scatter_legends (trace w)
    ++ match method with
       | cluster => (λ l, "Cluster " +:+ pretty (l + 1)) <$> seqZ 0 n
       | query => take (Z.to_nat n) (queries a)
       end.
Proof.
  unfold visualize. intros Hrun.
  apply bind_ok in Hrun as ([] & w1 & Htsne & Hrun).
  unfold emit in Htsne. injection Htsne as <-.
  apply bind_ok in Hrun as (vis & w2 & Hvis & Hrun).
  apply lift_ok in Hvis as [Hvis ->].
  apply bind_ok in Hrun as ([] & w3 & Hloop & Hrun).
  apply plot_loop_ok in Hloop as (series & Hseries & ->).
  unfold bind, emit in Hrun. simpl in Hrun. injection Hrun as <-. simpl.
  rewrite !scatter_legends_app, scatter_legends_series. simpl.
  rewrite !app_nil_r. f_equal.
  assert (Hlegends :
    Forall2 (λ l lg, legend_label a method l = Ok lg) (seqZ 0 n) series.*2).
  { apply Forall2_fmap_r. eapply Forall2_impl; [exact Hseries|].
    intros l s (_ & _ & Hlg). exact Hlg. }
  destruct method; simpl in Hlegends.
  - by apply (cluster_legends n).
  - apply query_legends. eapply Forall2_impl; [exact Hlegends|].
    intros l lg Hlg. simpl in Hlg.
    destruct (queries a !! Z.to_nat l); congruence.
Qed.

(** ** What a run writes to the cache *)

Lemma cache_adds_same {A} (P : cache_key → Prop) (m : M A) :
  (∀ w r w', m w = (r, w') → cache w' = cache w) → cache_adds P m.
Proof. intros Hsame w r w' Hrun k v Hk. left. by rewrite <- (Hsame _ _ _ Hrun). Qed.

Lemma cache_adds_ret {A} P (x : A) : cache_adds P (ret x).
Proof. apply cache_adds_same. by intros w r w' [= _ <-]. Qed.

Lemma cache_adds_raise {A} P (e : exn) : cache_adds P (@raise _ A e).
Proof. apply cache_adds_same. by intros w r w' [= _ <-]. Qed.

Lemma cache_adds_lift {A} P (x : result A) : cache_adds P (lift x).
Proof. apply cache_adds_same. by intros w r w' [= _ <-]. Qed.

Lemma cache_adds_emit P (e : event) : cache_adds P (emit e).
Proof. apply cache_adds_same. by intros w r w' [= _ <-]. Qed.

Lemma cache_adds_bind {A B} P (m : M A) (k : A → M B) :
  cache_adds P m →
  (∀ a w w1, m w = (Ok a, w1) → cache_adds P (k a)) →
  cache_adds P (bind m k).
Proof.
  intros Hm Hk w r w'. unfold bind.
  destruct (m w) as [[a|e] w1] eqn:Hrun.
  - intros Hrest key v Hkey.
    destruct (Hk a w w1 Hrun _ _ _ Hrest key v Hkey) as [Hmid|HP];
      [|by right].
    by eapply Hm.
  - intros [= _ <-]. by eapply Hm.
Qed.

Lemma cache_adds_get_dataset_embedding P model name mode ds instr b :
  P (name, mode, ds, instr) →
  cache_adds P (get_dataset_embedding model name mode ds instr b).
Proof.
  intros HP w r w' Hrun k v Hk.
  destruct (cache w !! (name, mode, ds, instr)) as [m0|] eqn:Hhit.
  - rewrite (get_dataset_embedding_hit _ _ _ _ _ _ _ _ Hhit) in Hrun.
    injection Hrun as _ <-. by left.
  - rewrite (get_dataset_embedding_miss _ _ _ _ _ _ _ Hhit) in Hrun.
    destruct (derive_sentences mode instr ds) as [S|];
      [|injection Hrun as _ <-; by left].
    destruct (encode model S b) as [m1|]; injection Hrun as _ <-;
      [|by left].
    simpl in Hk. destruct (decide (k = (name, mode, ds, instr))) as [->|Hne].
    + by right.
    + rewrite lookup_insert_ne in Hk by done. by left.
Qed.

Lemma cache_adds_embed_loop P a instr model files :
  (∀ f d, f ∈ files → load_dataset f = Ok d →
          P (model_key a, embedding_mode a, d, instr)) →
  ∀ Ds Es, cache_adds P (embed_loop a instr model files Ds Es).
Proof.
  induction files as [|f rest IH]; intros HP Ds Es; simpl.
  - apply cache_adds_ret.
  - apply cache_adds_bind.
    + apply cache_adds_bind; [apply cache_adds_emit|].
      intros _ _ _ _. apply cache_adds_lift.
    + intros d w w1 Hload. rewrite call_load_dataset_run in Hload.
      injection Hload as Hd _.
      apply cache_adds_bind.
      * apply cache_adds_get_dataset_embedding. apply (HP f); [left | exact Hd].
      * intros e _ _ _. apply IH.
        intros f' d' Hf'. apply HP. by right.
Qed.

Lemma cache_adds_plot_loop P a method labels xs ys range :
  cache_adds P (plot_loop a method labels xs ys range).
Proof.
  induction range as [|l rest IH]; simpl; [apply cache_adds_ret|].
  apply cache_adds_bind; [|intros _ _ _ _; exact IH].
  unfold plot_label.
  repeat (apply cache_adds_bind; [|intros ? ? ? _]);
    first [apply cache_adds_lift | apply cache_adds_emit].
Qed.

Lemma cache_adds_assign_labels P a method model E :
  cache_adds P (assign_labels a method model E).
Proof.
  destruct method; simpl.
  - destruct (n_clusters a); [|apply cache_adds_raise].
    repeat (apply cache_adds_bind; [|intros ? ? ? _]);
      first [apply cache_adds_lift | apply cache_adds_emit | apply cache_adds_ret].
  - destruct (query_instruction a); [|apply cache_adds_raise].
    unfold call_encode.
    repeat (apply cache_adds_bind; [|intros ? ? ? _]);
      first [apply cache_adds_lift | apply cache_adds_emit | apply cache_adds_ret].
Qed.

(** X16. Whatever its outcome, a run of [main] leaves every earlier cache
    entry as it was, and each entry it adds is stored under the model key,
    the embedding mode and the instruction of the run, for the dataset
    loaded from one of its data files: the embeddings of the queries are
    never cached. *)
Theorem X16_main_only_caches_its_own_datasets
    (a : Args) (w w' : world) (r : result unit) :
  main a w = (r, w') →
  cache w ⊆ cache w'
  ∧ ∀ k v, cache w' !! k = Some v → cache w !! k = Some v ∨ run_key a k.
Proof.
  intros Hrun. split; [by eapply cache_mono_main|].
  revert w r w' Hrun. change (cache_adds (run_key a) (main a)).
  unfold main.
  apply cache_adds_bind; [apply cache_adds_lift|]. intros method _ _ _.
  apply cache_adds_bind.
  { unfold call_load_model.
    apply cache_adds_bind; [apply cache_adds_emit|].
    intros _ _ _ _. apply cache_adds_lift. }
  intros model _ _ _. apply cache_adds_bind.
  { unfold get_dataset_embeddings.
    apply cache_adds_bind.
    { apply cache_adds_embed_loop. intros f d Hf Hd.
      repeat split; try reflexivity. exists f. done. }
    intros acc _ _ _.
    repeat (apply cache_adds_bind; [|intros ? ? ? _]);
      first [apply cache_adds_lift | apply cache_adds_ret]. }
  intros de _ _ _. apply cache_adds_bind; [apply cache_adds_assign_labels|].
  intros ln _ _ _. unfold visualize.
  apply cache_adds_bind; [apply cache_adds_emit|]. intros _ _ _ _.
  apply cache_adds_bind; [apply cache_adds_lift|]. intros vis _ _ _.
  apply cache_adds_bind; [apply cache_adds_plot_loop|]. intros _ _ _ _.
  repeat (apply cache_adds_bind; [|intros ? ? ? _]); apply cache_adds_emit.
Qed.

End MoreFacts.

(** ** The further properties at work on the concrete collaborators *)

Lemma X1_witness :
  (queries Demo.no_instruction_args ≠ []
   ∧ query_instruction Demo.no_instruction_args = None)
  ∧ ∀ w, @main Demo.env Demo.no_instruction_args w = (Raise AssertionError, w).
Proof.
  split; [split; [discriminate | reflexivity]|].
  apply (proj2 (proj2 (X1_validate_accepts_exactly_two_shapes
                         (H:=Demo.env) Demo.no_instruction_args)));
    [discriminate | reflexivity].
Defined.

Lemma X2_witness :
  @derive_sentences Demo.env "problem" "Represent the code" Demo.file_a
  = Ok [("Represent the code", Some "east");
        ("Represent the code", Some "west")]%string
  ∧ length [("Represent the code", Some "east");
            ("Represent the code", Some "west")]%string
    = length (rows Demo.file_a)
  ∧ ∃ text,
      [("Represent the code", Some "east");
       ("Represent the code", Some "west")]%string
        !! 1%nat = Some ("Represent the code"%string, text)
      ∧ text = Demo.row "s1" "west" "y" !! "problem"%string.
Proof.
  assert (HS :
    @derive_sentences Demo.env "problem" "Represent the code" Demo.file_a
    = Ok [("Represent the code", Some "east");
          ("Represent the code", Some "west")]%string)
    by (vm_compute; reflexivity).
  split; [exact HS|].
  destruct (X2_sentences_follow_rows (H:=Demo.env) _ _ _ _ HS)
    as (Hlen & _ & Hrows).
  split; [exact Hlen|].
  destruct (Hrows 1%nat (Demo.row "s1" "west" "y") eq_refl)
    as (text & Htext & Hcol & _).
  exists text. split; [exact Htext|]. apply Hcol. discriminate.
Defined.

(** A dataset without the column raises; a record without the field reads
    [None]. *)
Lemma X3_witness :
  (("problem"%string ∉ column_names Demo.seeds_only)
   ∧ @get_dataset_embedding Demo.env "handle-1" "instructor-base" "problem"
       Demo.seeds_only "Represent the code" 32 Demo.w0
     = (Raise (KeyError "problem"), Demo.w0))
  ∧ ("problem"%string ∈ column_names Demo.ragged
     ∧ @derive_sentences Demo.env "problem" "Represent the code" Demo.ragged
       = Ok [("Represent the code", Some "east");
             ("Represent the code", None)]%string).
Proof.
  assert (Hmode : "problem"%string ∈ ["seed"; "problem"; "solution"]%string)
    by (right; left).
  assert (Hno : "problem"%string ∉ column_names Demo.seeds_only).
  { simpl. rewrite not_elem_of_cons. split; [discriminate|].
    apply not_elem_of_nil. }
  assert (Hin : "problem"%string ∈ column_names Demo.ragged)
    by (right; left).
  split.
  - split; [exact Hno|].
    destruct (proj1 (X3_missing_column_key_error (H:=Demo.env) "problem"
                       "Represent the code" Demo.seeds_only Hmode
                       ltac:(discriminate)) Hno)
      as (_ & _ & Hcached).
    apply Hcached. apply cache_sound_empty.
  - split; [exact Hin|].
    destruct (proj2 (X3_missing_column_key_error (H:=Demo.env) "problem"
                       "Represent the code" Demo.ragged Hmode
                       ltac:(discriminate)) Hin)
      as (Hderive & _).
    rewrite Hderive. vm_compute. reflexivity.
Defined.

Lemma X4_witness :
  (@get_dataset_embedding Demo.env "handle-1" "instructor-base" "problem"
     Demo.seeds_only "Represent the code" 32 Demo.w0).1
  = Raise (KeyError "problem")
  ∧ cache (@get_dataset_embedding Demo.env "handle-1" "instructor-base"
             "problem" Demo.seeds_only "Represent the code" 32 Demo.w0).2
    = cache (@Demo.w0 Demo.env).
Proof.
  assert (Hfst :
    (@get_dataset_embedding Demo.env "handle-1" "instructor-base" "problem"
       Demo.seeds_only "Represent the code" 32 Demo.w0).1
    = Raise (KeyError "problem")) by (vm_compute; reflexivity).
  split; [exact Hfst|].
  apply (X4_failed_call_leaves_cache_untouched (H:=Demo.env)
           _ _ _ _ _ _ _ _ _ (run_raise_split _ _ Hfst)).
Defined.


Lemma X6_witness :
  data_files (with_data_files [] Demo.cluster_args) = []
  ∧ @get_dataset_embeddings Demo.env (with_data_files [] Demo.cluster_args)
      "Represent the code" "handle-1"%string Demo.w0
    = (Raise ValueError, Demo.w0).
Proof.
  split; [reflexivity|].
  apply (X6_no_data_file_value_error (H:=Demo.env)
           (with_data_files [] Demo.cluster_args)). reflexivity.
Defined.

Lemma X7_witness :
  @load_dataset Demo.env "missing.jsonl"
  = Raise (ExternalError "FileNotFoundError")
  ∧ (@get_dataset_embeddings Demo.env Demo.broken_files_args
       "Represent the code" "handle-1"%string Demo.w0).1
    = Raise (ExternalError "FileNotFoundError")
  ∧ map event_name
      (trace (@get_dataset_embeddings Demo.env Demo.broken_files_args
                "Represent the code" "handle-1"%string Demo.w0).2)
    = ["load_dataset"; "encode"; "load_dataset"]%string.
Proof.
  assert (Hbad : @load_dataset Demo.env "missing.jsonl"
                 = Raise (ExternalError "FileNotFoundError"))
    by (vm_compute; reflexivity).
  split; [exact Hbad|].
  assert (Hloop :
    (@embed_loop Demo.env Demo.broken_files_args "Represent the code"
       "handle-1"%string ["a.jsonl"%string] [] [] Demo.w0).1
    = Ok ([Demo.file_a], [[[1; 0]; [-1; 0]]])) by (vm_compute; reflexivity).
  destruct (proj1 (embed_loop_files_run (H:=Demo.env) _ _ _ _ _ _ _ _ _ _)
              (run_ok_split _ _ Hloop)) as (Ds & Es & Hrun & _ & _).
  rewrite (X7_load_failure_stops_the_loop (H:=Demo.env)
             Demo.broken_files_args "Represent the code" "handle-1"%string
             ["a.jsonl"%string] ["b.jsonl"%string] "missing.jsonl" _ _ _ _ _
             eq_refl Hrun Hbad).
  split; [reflexivity|]. simpl. rewrite map_app. simpl.
  vm_compute. reflexivity.
Defined.

Lemma X8_witness :
  @raw_labels Demo.env (Demo.query_args ["east"; "north"; "west"]%string)
    query "handle-1"%string [[1; 0]; [-1; 0]; [1; 0]] = Ok ([0; 2; 0], 3)
  ∧ (∀ l, l ∈ [0; 2; 0] → 0 ≤ l < 3)
  ∧ (check_labels [0; 2; 0] 3 = Ok tt ↔ 0 ∈ [0; 2; 0] ∧ (3 - 1) ∈ [0; 2; 0]).
Proof.
  assert (Hraw :
    @raw_labels Demo.env (Demo.query_args ["east"; "north"; "west"]%string)
      query "handle-1"%string [[1; 0]; [-1; 0]; [1; 0]] = Ok ([0; 2; 0], 3))
    by (vm_compute; reflexivity).
  split; [exact Hraw|].
  destruct (X8_query_labels_in_range (H:=Demo.env) _ _ _ _ _ Hraw)
    as (Hrange & Hcheck & _).
  split; [exact Hrange | exact Hcheck].
Defined.

Lemma X9_witness :
  @encode Demo.lossy_env "handle-1"
    (map (λ q, ("Represent the query"%string, Some q)) ["east"; "west"]%string) 32
  = Ok [[1; 0]]
  ∧ @assign_labels Demo.lossy_env (Demo.query_args ["east"; "west"]%string)
      query "handle-1"%string [[1; 0]] Demo.w0
    = (Raise AssertionError,
       mkWorld (cache (@Demo.w0 Demo.lossy_env))
         (trace (@Demo.w0 Demo.lossy_env)
          ++ @strategy_events Demo.lossy_env
               (Demo.query_args ["east"; "west"]%string) query)).
Proof.
  assert (HQ :
    @encode Demo.lossy_env "handle-1"
      (map (λ q, ("Represent the query"%string, Some q)) ["east"; "west"]%string) 32
    = Ok [[1; 0]]) by (vm_compute; reflexivity).
  split; [exact HQ|].
  apply (X9_query_vector_count_mismatch_aborts (H:=Demo.lossy_env)
           (Demo.query_args ["east"; "west"]%string) "handle-1"%string
           [[1; 0]] "Represent the query" [[1; 0]] Demo.w0 eq_refl HQ).
  - simpl. lia.
  - discriminate.
Defined.

Lemma X10_witness :
  @assign_labels Demo.env (Demo.query_args ["east"; "west"]%string)
    query "handle-1"%string [] Demo.w0
  = (Raise ValueError,
     mkWorld (cache (@Demo.w0 Demo.env))
       (trace (@Demo.w0 Demo.env)
        ++ @strategy_events Demo.env
             (Demo.query_args ["east"; "west"]%string) query)).
Proof.
  apply (X10_no_item_value_error (H:=Demo.env)
           (Demo.query_args ["east"; "west"]%string) "handle-1"%string
           "Represent the query" [[1; 0]; [-1; 0]] Demo.w0 eq_refl).
  vm_compute. reflexivity.
Defined.

Lemma X11_witness :
  @raw_labels Demo.env (Demo.query_args ["east"%string]) query
    "handle-1"%string [[1; 0]; [-1; 0]] = Ok ([0; 0], 1)
  ∧ [0; 0] = replicate (length [[1; 0]; [-1; 0]]) 0
  ∧ check_labels [0; 0] 1 = Ok tt.
Proof.
  assert (Hraw :
    @raw_labels Demo.env (Demo.query_args ["east"%string]) query
      "handle-1"%string [[1; 0]; [-1; 0]] = Ok ([0; 0], 1))
    by (vm_compute; reflexivity).
  split; [exact Hraw|].
  destruct (X11_single_query_labels_all_zero (H:=Demo.env)
              (Demo.query_args ["east"%string]) "handle-1"%string
              [[1; 0]; [-1; 0]] "east"%string [0; 0] 1 eq_refl Hraw)
    as (_ & Hzero & Hcheck & _).
  split; [exact Hzero|]. apply Hcheck. discriminate.
Defined.

Lemma X12_witness :
  take_indices [10; 20; 30] (where_eq [0; 1; 0] 0) = Ok [10; 30]
  ∧ take_indices [10] (where_eq [0; 1; 0] 0) = Raise IndexError.
Proof.
  split.
  - rewrite (proj1 (X12_series_points_are_those_with_the_label
                      [10; 20; 30] [0; 1; 0] 0)) by (simpl; lia).
    vm_compute. reflexivity.
  - apply (proj2 (X12_series_points_are_those_with_the_label
                    [10] [0; 1; 0] 0) 2%nat); [reflexivity | simpl; lia].
Defined.


Lemma X14_witness :
  @tsne_fit_transform Demo.env [[1; 0]; [-1; 0]; [1; 0]]
  = Ok [(3, 0); (-3, 0); (3, 0)]
  ∧ ∃ w', @visualize Demo.env Demo.cluster_args cluster [0; 1; 0] 2
            [[1; 0]; [-1; 0]; [1; 0]] Demo.w0 = (Ok tt, w').
Proof.
  assert (Hvis :
    @tsne_fit_transform Demo.env [[1; 0]; [-1; 0]; [1; 0]]
    = Ok [(3, 0); (-3, 0); (3, 0)]) by (vm_compute; reflexivity).
  split; [exact Hvis|].
  destruct (X14_visualize_completes (H:=Demo.env) Demo.cluster_args cluster
              [0; 1; 0] 2 [[1; 0]; [-1; 0]; [1; 0]] _ Demo.w0 Hvis)
    as (legends & _ & Hrun).
  - simpl. lia.
  - discriminate.
  - eexists. exact Hrun.
Defined.

Lemma X15_witness :
  (@visualize Demo.env (Demo.query_args ["east"; "west"]%string) query
     [0; 1; 0] 2 [[1; 0]; [-1; 0]; [1; 0]] Demo.w0).1 = Ok tt
  ∧ @scatter_legends Demo.env
      (trace (@visualize Demo.env (Demo.query_args ["east"; "west"]%string)
                query [0; 1; 0] 2 [[1; 0]; [-1; 0]; [1; 0]] Demo.w0).2)
    = ["east"; "west"]%string.
Proof.
  assert (Hok :
    (@visualize Demo.env (Demo.query_args ["east"; "west"]%string) query
       [0; 1; 0] 2 [[1; 0]; [-1; 0]; [1; 0]] Demo.w0).1 = Ok tt)
    by (vm_compute; reflexivity).
  split; [exact Hok|].
  rewrite (X15_legends_name_the_groups (H:=Demo.env)
             _ _ _ _ _ _ _ (run_ok_split _ _ Hok)).
  vm_compute. reflexivity.
Defined.

Lemma X16_witness :
  cache (@Demo.w0 Demo.env)
    ⊆ cache (@main Demo.env Demo.cluster_args Demo.w0).2
  ∧ ∀ k v,
      cache (@main Demo.env Demo.cluster_args Demo.w0).2 !! k = Some v →
      cache (@Demo.w0 Demo.env) !! k = Some v
      ∨ @run_key Demo.env Demo.cluster_args k.
Proof.
  apply (X16_main_only_caches_its_own_datasets (H:=Demo.env)
           Demo.cluster_args Demo.w0
           (@main Demo.env Demo.cluster_args Demo.w0).2
           (@main Demo.env Demo.cluster_args Demo.w0).1).
  apply surjective_pairing.
Defined.
